(** * ccc-ragbot: HTTP, SSE and WebSocket front-ends of a conversational graph

    A shallow embedding of [src/main.py], [src/server.py] and the chat turn
    of [src/frontend_streamlit.py].

    - Python [str] values are [string]s holding the UTF-8 encoding of the text.
    - Code that can raise returns a [pyresult]; code with effects (calls to the
      external graph, to the hosted model, to [uuid.uuid4], generator yields,
      WebSocket operations) runs in the monad [Py], which threads the log of
      the effects performed so far and stops at the first exception.
    - The external collaborators ([graph], [response_model], [json.dumps],
      the [WebSocket] connection, the value drawn by [uuid.uuid4]) are not
      code of this repository: they are parameters of the definitions. *)

From Stdlib Require Import String Ascii List Bool Arith Lia DecimalString.
Import ListNotations.
Open Scope string_scope.

Set Implicit Arguments.

(** ** Python values *)

(** The exception classes that occur.  [CancelledError], [GeneratorExit] and
    [KeyboardInterrupt] derive from [BaseException] only. *)
Inductive exn : Type :=
| IndexError | KeyError | TypeError | AttributeError | RuntimeError
| WebSocketDisconnect
| CancelledError | GeneratorExit | KeyboardInterrupt.

(** [isinstance(e, Exception)] *)
Definition isinstance_Exception (e : exn) : bool :=
  match e with
  | CancelledError | GeneratorExit | KeyboardInterrupt => false
  | _ => true
  end.

(** [isinstance(e, GeneratorExit)] *)
Definition isinstance_GeneratorExit (e : exn) : bool :=
  match e with GeneratorExit => true | _ => false end.

Inductive pyresult (A : Type) : Type :=
| Ok (a : A)
| Raise (e : exn).
Arguments Ok {A} a.
Arguments Raise {A} e.

(** *** Strings *)

(** The one-character string ["\n"]. *)
Definition nl : string := String "010"%char EmptyString.

(** [str(n)] for a non-negative [int]. *)
Definition str_int (n : nat) : string := NilZero.string_of_uint (Nat.to_uint n).

(** Truth value of an [Optional[str]]: [None] and the empty string are false. *)
Definition truthy (o : option string) : bool :=
  match o with
  | None => false
  | Some EmptyString => false
  | Some (String _ _) => true
  end.

(** [c.lower()] on one byte of the text.  A-Z become a-z.  The bytes of a
    non-ASCII character are kept: Python lowers such characters too, but to
    non-ASCII text, except U+0130 (to [i] followed by U+0307) and U+212A (to
    [k]), and neither can complete an occurrence of ["retrieve"], the one
    string the code looks for in lowered text. *)
Definition lower_ascii (c : ascii) : ascii :=
  let n := nat_of_ascii c in
  if ((65 <=? n)%nat && (n <=? 90)%nat)%bool then ascii_of_nat (n + 32) else c.

(** [s.lower()] *)
Fixpoint lower (s : string) : string :=
  match s with
  | EmptyString => EmptyString
  | String c s' => String (lower_ascii c) (lower s')
  end.

(** [s.startswith(p)] *)
Fixpoint startswith (p s : string) : bool :=
  match p, s with
  | EmptyString, _ => true
  | String a p', String b s' => Ascii.eqb a b && startswith p' s'
  | String _ _, EmptyString => false
  end.

(** [needle in hay] *)
Fixpoint str_in (needle hay : string) : bool :=
  startswith needle hay ||
  match hay with
  | EmptyString => false
  | String _ hay' => str_in needle hay'
  end.

(** [s.split(sep)] for a one-character separator. *)
Fixpoint str_split (sep : ascii) (s : string) : list string :=
  match s with
  | EmptyString => [EmptyString]
  | String c s' =>
      if Ascii.eqb c sep then EmptyString :: str_split sep s'
      else match str_split sep s' with
           | [] => [String c EmptyString]
           | field :: fields => String c field :: fields
           end
  end.

Fixpoint drop (n : nat) (s : string) : string :=
  match n, s with
  | S n', String _ s' => drop n' s'
  | _, _ => s
  end.

Definition reversed_str (s : string) : string :=
  string_of_list_ascii (rev (list_ascii_of_string s)).

(** The text of the bytes given by their codes. *)
Definition utf8 (bytes : list nat) : string :=
  string_of_list_ascii (map ascii_of_nat bytes).

(** [s.lstrip(chars)], with [chars] the list of the characters to remove,
    each one in its encoding. *)
Fixpoint lstrip_loop (fuel : nat) (chars : list string) (s : string) : string :=
  match fuel with
  | 0 => s
  | S fuel' =>
      match find (fun c => startswith c s) chars with
      | Some (String a c') =>
          lstrip_loop fuel' chars (drop (String.length (String a c')) s)
      | _ => s
      end
  end.

Definition lstrip (chars : list string) (s : string) : string :=
  lstrip_loop (String.length s) chars s.

(** [s.strip(chars)] *)
Definition strip_chars (chars : list string) (s : string) : string :=
  reversed_str (lstrip (map reversed_str chars) (reversed_str (lstrip chars s))).

(** The characters [str.strip()] removes: U+0009-000D, U+001C-0020, U+0085,
    U+00A0, U+1680, U+2000-200A, U+2028, U+2029, U+202F, U+205F, U+3000. *)
Definition whitespace : list string :=
  (map (fun n => utf8 [n]) [9; 10; 11; 12; 13; 28; 29; 30; 31; 32]
   ++ [utf8 [194; 133]; utf8 [194; 160]; utf8 [225; 154; 128]]
   ++ map (fun n => utf8 [226; 128; n])
        [128; 129; 130; 131; 132; 133; 134; 135; 136; 137; 138; 168; 169; 175]
   ++ [utf8 [226; 129; 159]; utf8 [227; 128; 128]])%list.

(** [s.strip()] *)
Definition strip (s : string) : string := strip_chars whitespace s.

(** Truth value of a [str]. *)
Definition nonempty (s : string) : bool :=
  match s with EmptyString => false | String _ _ => true end.

(** *** Lists *)

(** [xs[-1]]: raises [IndexError] on the empty list. *)
Definition getitem_last {A : Type} (xs : list A) : pyresult A :=
  match rev xs with
  | x :: _ => Ok x
  | [] => Raise IndexError
  end.

(** [enumerate(xs, start)] *)
Fixpoint enumerate {A : Type} (start : nat) (xs : list A) : list (nat * A) :=
  match xs with
  | [] => []
  | x :: xs' => (start, x) :: enumerate (S start) xs'
  end.

(** *** Messages, node updates, chunks *)

(** The message objects of [langchain_core.messages], and [PlainObject] for
    any other object found in a message list (one without a [content]
    attribute), carried with its [str()].  The [name] of a [ToolMessage] is
    an [Optional[str]], [None] unless the message was built with one.  The
    [content] of a message is a [str]; a list of content blocks, which the
    library accepts too, is left out. *)
Inductive message : Type :=
| HumanMessage (content : string)
| AIMessage (content : string)
| ToolMessage (name : option string) (content : string)
| PlainObject (str : string).

Definition isinstance_AIMessage (msg : message) : bool :=
  match msg with AIMessage _ => true | _ => false end.

Definition isinstance_ToolMessage (msg : message) : bool :=
  match msg with ToolMessage _ _ => true | _ => false end.

(** [f"{name}"] for an [Optional[str]]: [None] is printed as [None]. *)
Definition str_optional (name : option string) : string :=
  match name with
  | Some text => text
  | None => "None"
  end.

(** [name.lower()] for an [Optional[str]]: [None] has no such attribute. *)
Definition getattr_lower (name : option string) : pyresult string :=
  match name with
  | Some text => Ok (lower text)
  | None => Raise AttributeError
  end.

(** [msg.content if hasattr(msg, "content") else str(msg)] *)
Definition content_or_str (msg : message) : string :=
  match msg with
  | HumanMessage c | AIMessage c | ToolMessage _ c => c
  | PlainObject s => s
  end.

(** A node update: the mapping a node returned, of which the code reads
    [update["messages"]]. *)
Record update : Type := Update { messages : list message }.

(** A chunk of [graph.stream]: a [dict] from node name to node update, as the
    list of its [items()] in insertion order. *)
Definition chunk : Type := list (string * update).

(** What [graph.stream(...)] turns out to be when iterated: the chunks it
    yields, in order, and the exception that ends the iteration, if any. *)
Record graph_stream : Type := GraphStream {
  yielded : list chunk;
  raised : option exn
}.

(** *** JSON values, as far as the code builds them *)

#[local] Unset Elimination Schemes.
Inductive json : Type :=
| JStr (s : string)
| JInt (n : nat)
| JObj (items : list (string * json)).
#[local] Set Elimination Schemes.

(** ** The external collaborators *)

(** An element of the ["messages"] list given to the graph: [main.py] passes
    the dict [{"role": ..., "content": ...}], [server.py] a [HumanMessage]. *)
Inductive input_message : Type :=
| RoleContent (role content : string)
| InputMessage (msg : message).

(** [{"configurable": {"thread_id": thread_id}}] *)
Record config : Type := Config { configurable_thread_id : string }.

(** What [graph.get_state(config)] returns, as far as the code looks into
    it.  The compiled graph of LangGraph returns a [StateSnapshot], a named
    tuple that keeps the channels of the state in its field [values]; any
    other object is taken to be a mapping, with or without the key
    ["messages"]. *)
Inductive state : Type :=
| StateSnapshot (values_messages : list message)
| StateMapping (items_messages : option (list message)).

(** [state["messages"]]: a named tuple takes integer and slice indices only,
    a mapping gives the value at the key. *)
Definition getitem_messages (st : state) : pyresult (list message) :=
  match st with
  | StateSnapshot _ => Raise TypeError
  | StateMapping (Some msgs) => Ok msgs
  | StateMapping None => Raise KeyError
  end.

(** The imported [graph] object.  [invoke] gives [result["messages"]] and
    [get_state] the object it returns; both calls can raise. *)
Record Graph : Type := {
  invoke : list input_message -> config -> pyresult (list message);
  stream : list input_message -> config -> graph_stream;
  get_state : config -> pyresult state
}.

(** The JSON object a WebSocket client sends: the two keys the handler reads,
    each of them possibly missing. *)
Record ws_data : Type := WsData {
  data_query : option string;
  data_thread_id : option string
}.

(** A WebSocket connection, by the outcome of each operation of the handler:
    [None] where the call returns, [Some e] where it raises [e].  The sends
    are numbered from 0 in the order they are attempted. *)
Record WebSocket : Type := {
  accept_raises : option exn;
  receive_json_result : pyresult ws_data;
  send_json_raises : nat -> option exn;
  close_raises : option exn
}.

(** ** Effects *)

(** The effects a request can have on the outside world. *)
Inductive event : Type :=
| CallUuid4
| CallInvoke (input : list input_message) (cfg : config)
| CallStream (input : list input_message) (cfg : config)
| CallGetState (cfg : config)
| CallModel (input : list input_message)
| Yield (item : string)
| WsAccept
| WsReceiveJson
| WsSendJson (frame : json) (sent : bool)
| WsClose.

(** A computation takes the log of the effects so far and gives its result,
    or the exception it raised, with the extended log. *)
Definition Py (A : Type) : Type := list event -> pyresult A * list event.

Definition ret {A : Type} (a : A) : Py A := fun log => (Ok a, log).

Definition bind {A B : Type} (m : Py A) (k : A -> Py B) : Py B :=
  fun log =>
    match m log with
    | (Ok a, log') => k a log'
    | (Raise e, log') => (Raise e, log')
    end.

Definition raise {A : Type} (e : exn) : Py A := fun log => (Raise e, log).

Definition perform (ev : event) : Py unit := fun log => (Ok tt, (log ++ [ev])%list).

(** A pure expression that can raise. *)
Definition py {A : Type} (r : pyresult A) : Py A := fun log => (r, log).

(** A call that returns [None] or raises. *)
Definition outcome (o : option exn) : Py unit :=
  match o with
  | None => ret tt
  | Some e => raise e
  end.

Declare Scope py_scope.
Delimit Scope py_scope with py.
Notation "x <- m ;; k" := (bind m (fun x => k))
  (at level 61, m at next level, right associativity) : py_scope.
Notation "' pat <- m ;; k" := (bind m (fun x => match x with pat => k end))
  (at level 61, pat pattern, m at next level, right associativity) : py_scope.
Notation "m ;; k" := (bind m (fun _ => k))
  (at level 61, right associativity) : py_scope.
Open Scope py_scope.

(** [try: body  except C: handler], with [C] given by its [isinstance] test. *)
Definition try_except {A : Type} (body : Py A) (isinstance_C : exn -> bool)
    (handler : Py A) : Py A :=
  fun log =>
    match body log with
    | (Raise e, log') =>
        if isinstance_C e then handler log' else (Raise e, log')
    | (Ok a, log') => (Ok a, log')
    end.

(** [try: body  finally: final]: [final] runs in every case, and an exception
    it raises replaces the outcome of [body]. *)
Definition try_finally {A : Type} (body : Py A) (final : Py unit) : Py A :=
  fun log =>
    match body log with
    | (r, log') =>
        match final log' with
        | (Ok _, log'') => (r, log'')
        | (Raise e, log'') => (Raise e, log'')
        end
    end.

(** [for x in xs: body], where the body updates the local variables [vars]. *)
Fixpoint for_in {X V : Type} (xs : list X) (vars : V) (body : X -> V -> Py V)
    : Py V :=
  match xs with
  | [] => ret vars
  | x :: xs' => vars' <- body x vars ;; for_in xs' vars' body
  end.

(** [for step, chunk in enumerate(s, start=1): body], for a graph stream [s]:
    the exception that ends the stream is raised once its chunks are used up. *)
Definition for_in_enumerate_stream {V : Type} (s : graph_stream) (vars : V)
    (body : nat * chunk -> V -> Py V) : Py V :=
  vars' <- for_in (enumerate 1 (yielded s)) vars body ;;
  outcome (raised s) ;;
  ret vars'.

(** [for chunk in s: body], without the counter. *)
Definition for_in_stream {V : Type} (s : graph_stream) (vars : V)
    (body : chunk -> V -> Py V) : Py V :=
  vars' <- for_in (yielded s) vars body ;;
  outcome (raised s) ;;
  ret vars'.

(** [yield item] *)
Definition yield (item : string) : Py unit := perform (Yield item).

(** [time.sleep(seconds)]: no effect that is observed here. *)
Definition time_sleep : Py unit := ret tt.

(** The items a generator has yielded, read off the log. *)
Definition yields (log : list event) : list string :=
  flat_map (fun ev => match ev with Yield item => [item] | _ => [] end) log.

(** The number of [send_json] calls attempted. *)
Definition sends (log : list event) : nat :=
  length (filter (fun ev => match ev with WsSendJson _ _ => true | _ => false end) log).

(** *** The WebSocket operations *)

Definition ws_accept (websocket : WebSocket) : Py unit :=
  perform WsAccept ;; outcome (accept_raises websocket).

Definition ws_receive_json (websocket : WebSocket) : Py ws_data :=
  perform WsReceiveJson ;; py (receive_json_result websocket).

Definition ws_send_json (websocket : WebSocket) (frame : json) : Py unit :=
  fun log =>
    match send_json_raises websocket (sends log) with
    | None => (Ok tt, (log ++ [WsSendJson frame true])%list)
    | Some e => (Raise e, (log ++ [WsSendJson frame false])%list)
    end.

Definition ws_close (websocket : WebSocket) : Py unit :=
  perform WsClose ;; outcome (close_raises websocket).

(** [data["query"]] *)
Definition getitem_query (data : ws_data) : pyresult string :=
  match data_query data with
  | Some q => Ok q
  | None => Raise KeyError
  end.

(** [o or default] for an [Optional[str]] [o]: [default] is evaluated only
    when [o] is false. *)
Definition or_else (o : option string) (default : Py string) : Py string :=
  match o with
  | Some (String c s) => ret (String c s)
  | _ => default
  end.

(** ** [src/main.py] *)

Module Main.

Record QueryRequest : Type := {
  req_query : string;
  req_thread_id : option string
}.

Record QueryResponse : Type := {
  answer : string;
  steps : list string;
  thread_id : string
}.

(** [StreamingResponse(content, media_type=..., headers=...)]: the generator
    is kept, to be run by the framework. *)
Record StreamingResponse : Type := {
  content : Py unit;
  media_type : string;
  headers : list (string * string)
}.

Section Endpoints.

Variable graph : Graph.
(** The string [str(uuid.uuid4())] evaluates to, where the request calls it. *)
Variable uuid4 : string.
(** [json.dumps] *)
Variable json_dumps : json -> string.

Definition graph_stream_call (input : list input_message) (cfg : config)
    : Py graph_stream :=
  perform (CallStream input cfg) ;; ret (stream graph input cfg).

(** [str(uuid.uuid4())] *)
Definition str_uuid4 : Py string := perform CallUuid4 ;; ret uuid4.

(** The f-string appended to [steps_log]. *)
Definition step_entry (step : nat) (node content : string) : string :=
  "Step " ++ str_int step ++ " | Node: " ++ node ++ nl
  ++ "Response: " ++ content.

Definition run_graph (query thread_id : string) : Py (string * list string) :=
  let config := Config thread_id in
  let final_answer := EmptyString in
  let steps_log : list string := [] in
  s <- graph_stream_call [RoleContent "user" query] config ;;
  for_in_enumerate_stream s (final_answer, steps_log)
    (fun '(step, chunk) vars =>
       for_in chunk vars
         (fun '(node, update) '(final_answer, steps_log) =>
            msg <- py (getitem_last (messages update)) ;;
            let content := content_or_str msg in
            let steps_log :=
              (steps_log ++ [step_entry step node content])%list in
            let final_answer := content in
            ret (final_answer, steps_log))).

(** The dicts given to [json.dumps] and to [send_json]. *)
Definition init_event (thread_id : string) : json :=
  JObj [("event", JStr "init"); ("thread_id", JStr thread_id)].

Definition step_event (step : nat) (node content : string) : json :=
  JObj [("event", JStr "step"); ("step", JInt step); ("node", JStr node);
        ("content", JStr content)].

Definition done_event : json := JObj [("event", JStr "done")].

(** [f"data: {json.dumps(obj)}\n\n"] *)
Definition sse_data (obj : json) : string :=
  "data: " ++ json_dumps obj ++ nl ++ nl.

(** The generator.  A consumer that closes it early has received a prefix of
    its yields; [GeneratorExit] is then raised at the pending [yield], and
    the handler below returns. *)
Definition sse_graph_stream (query thread_id : string) : Py unit :=
  let config := Config thread_id in
  yield (sse_data (init_event thread_id)) ;;
  try_except
    (s <- graph_stream_call [RoleContent "user" query] config ;;
     for_in_enumerate_stream s tt
       (fun '(step, chunk) _ =>
          for_in chunk tt
            (fun '(node, update) _ =>
               msg <- py (getitem_last (messages update)) ;;
               let content := content_or_str msg in
               yield (sse_data (step_event step node content)) ;;
               time_sleep)) ;;
     yield (sse_data done_event))
    isinstance_GeneratorExit
    (ret tt).

Definition query (req : QueryRequest) : Py QueryResponse :=
  thread_id <- or_else (req_thread_id req) str_uuid4 ;;
  '(answer, steps) <- run_graph (req_query req) thread_id ;;
  ret {| answer := answer; steps := steps; thread_id := thread_id |}.

Definition query_stream (req : QueryRequest) : Py StreamingResponse :=
  thread_id <- or_else (req_thread_id req) str_uuid4 ;;
  ret {| content := sse_graph_stream (req_query req) thread_id;
         media_type := "text/event-stream";
         headers := [("Cache-Control", "no-cache");
                     ("Connection", "keep-alive")] |}.

Definition query_ws (websocket : WebSocket) : Py unit :=
  ws_accept websocket ;;
  try_finally
    (try_except
       (data <- ws_receive_json websocket ;;
        query <- py (getitem_query data) ;;
        thread_id <- or_else (data_thread_id data) str_uuid4 ;;
        ws_send_json websocket (init_event thread_id) ;;
        let config := Config thread_id in
        s <- graph_stream_call [RoleContent "user" query] config ;;
        for_in_enumerate_stream s tt
          (fun '(step, chunk) _ =>
             for_in chunk tt
               (fun '(node, update) _ =>
                  msg <- py (getitem_last (messages update)) ;;
                  let content := content_or_str msg in
                  ws_send_json websocket (step_event step node content))) ;;
        ws_send_json websocket done_event)
       isinstance_Exception
       (ret tt))
    (ws_close websocket).

End Endpoints.

End Main.

(** ** [src/server.py] *)

Module Server.

Record ChatRequest : Type := {
  req_query : string;
  req_thread_id : option string
}.

Record ChatResponse : Type := {
  answer : string;
  thread_id : string;
  tool_type : option string;
  tool_name : option string
}.

Record SuggestRequest : Type := {
  req_final_answer : option string;
  suggest_thread_id : option string
}.

Record SuggestResponse : Type := {
  suggestions : list string;
  resp_thread_id : option string
}.

(** The dict [extract_tool_metadata] returns. *)
Record ToolMetadata : Type := {
  meta_tool_name : option string;
  meta_tool_type : string
}.

Record StreamingResponse : Type := {
  content : Py unit;
  media_type : string
}.

(** *** Helpers *)

(** [for x in xs: if ...: return ...], then [return None]: [select] gives the
    value returned at [x], or [None] where the test fails. *)
Fixpoint first_return {A B : Type} (select : A -> option B) (xs : list A)
    : option B :=
  match xs with
  | [] => None
  | x :: xs' =>
      match select x with
      | Some b => Some b
      | None => first_return select xs'
      end
  end.

Definition extract_final_answer (messages : list message) : option message :=
  first_return
    (fun msg => if isinstance_AIMessage msg then Some msg else None)
    (rev messages).

(** The dict is built at the first [ToolMessage] met, and building it can
    raise: [msg.name.lower()] is evaluated whatever the name is. *)
Definition extract_tool_metadata (messages : list message)
    : pyresult ToolMetadata :=
  match
    first_return
      (fun msg =>
         match msg with
         | ToolMessage name _ =>
             Some match getattr_lower name with
                  | Ok lowered =>
                      Ok {| meta_tool_name := name;
                            meta_tool_type :=
                              if str_in "retrieve" lowered
                              then "rag" else "custom" |}
                  | Raise e => Raise e
                  end
         | _ => None
         end)
      (rev messages)
  with
  | Some returned => returned
  | None => Ok {| meta_tool_name := None; meta_tool_type := "none" |}
  end.

Definition get_last_ai_answer (messages : list message) : option string :=
  first_return
    (fun msg =>
       match msg with
       | AIMessage content => Some content
       | _ => None
       end)
    (rev messages).

(** [msg.content] *)
Definition getattr_content (msg : message) : pyresult string :=
  match msg with
  | HumanMessage c | AIMessage c | ToolMessage _ c => Ok c
  | PlainObject _ => Raise AttributeError
  end.

(** [SUGGESTION_PROMPT], up to its placeholder and after it. *)
Definition SUGGESTION_PROMPT_head : string :=
"
You are an assistant that generates follow-up query suggestions.

Rules:
- Use the provided final answer.
- If the final answer contains a question, generate possible answers to that question.
- If the final answer is neutral, suggest queries related to Cloud Computing Cell (CCC) and related to the neutral answer.
- Generate between 2 and 3 suggestions.
- Each suggestion must contain 3 to 6 words.
- Do NOT number the suggestions.
- Do NOT use bullets.

Final Answer:
".

Definition SUGGESTION_PROMPT_tail : string := nl.

(** [SUGGESTION_PROMPT.format(final_answer=final_answer)] *)
Definition SUGGESTION_PROMPT_format (final_answer : string) : string :=
  SUGGESTION_PROMPT_head ++ final_answer ++ SUGGESTION_PROMPT_tail.

(** The bullet U+2022. *)
Definition bullet : string := utf8 [226; 128; 162].

(** [[line.strip("-• ").strip() for line in text.split("\n") if line.strip()]] *)
Definition suggestion_lines (text : string) : list string :=
  map (fun line => strip (strip_chars ["-"; bullet; " "] line))
      (filter (fun line => nonempty (strip line)) (str_split "010"%char text)).

Section Endpoints.

Variable graph : Graph.
(** The string [str(uuid.uuid4())] evaluates to, where the request calls it. *)
Variable uuid4 : string.
(** [response_model.invoke(input).content] *)
Variable response_model : list input_message -> pyresult string.

Definition graph_invoke (input : list input_message) (cfg : config)
    : Py (list message) :=
  perform (CallInvoke input cfg) ;; py (invoke graph input cfg).

Definition graph_stream_call (input : list input_message) (cfg : config)
    : Py graph_stream :=
  perform (CallStream input cfg) ;; ret (stream graph input cfg).

Definition graph_get_state (cfg : config) : Py state :=
  perform (CallGetState cfg) ;; py (get_state graph cfg).

Definition response_model_invoke (input : list input_message) : Py string :=
  perform (CallModel input) ;; py (response_model input).

Definition str_uuid4 : Py string := perform CallUuid4 ;; ret uuid4.

(** [ChatResponse(...)] checks its fields against their declared types;
    with the [str] contents of the messages here, they have them. *)
Definition chat (request : ChatRequest) : Py ChatResponse :=
  thread_id <- or_else (req_thread_id request) str_uuid4 ;;
  let config := Config thread_id in
  messages <-
    graph_invoke [InputMessage (HumanMessage (req_query request))] config ;;
  let final_msg := extract_final_answer messages in
  tool_meta <- py (extract_tool_metadata messages) ;;
  answer <- match final_msg with
            | Some msg => py (getattr_content msg)
            | None => ret "I don't know."
            end ;;
  ret {| answer := answer;
         thread_id := thread_id;
         tool_type := Some (meta_tool_type tool_meta);
         tool_name := meta_tool_name tool_meta |}.

Definition event_stream (request : ChatRequest) (thread_id : string)
    (config : config) : Py unit :=
  yield ("event: thread" ++ nl) ;;
  yield ("data: " ++ thread_id ++ nl ++ nl) ;;
  s <- graph_stream_call
         [InputMessage (HumanMessage (req_query request))] config ;;
  for_in_stream s tt
    (fun chunk _ =>
       for_in chunk tt
         (fun '(node, update) _ =>
            yield ("event: node" ++ nl) ;;
            yield ("data: 🔹 Node: " ++ node ++ nl ++ nl) ;;
            for_in (messages update) tt
              (fun msg _ =>
                 match msg with
                 | AIMessage content =>
                     yield ("event: message" ++ nl) ;;
                     yield ("data: " ++ content ++ nl ++ nl)
                 | ToolMessage name _ =>
                     yield ("event: tool" ++ nl) ;;
                     yield ("data: Tool=" ++ str_optional name ++ nl ++ nl)
                 | _ => ret tt
                 end))) ;;
  yield ("event: done" ++ nl) ;;
  yield ("data: end" ++ nl ++ nl).

Definition chat_stream (request : ChatRequest) : Py StreamingResponse :=
  thread_id <- or_else (req_thread_id request) str_uuid4 ;;
  let config := Config thread_id in
  ret {| content := event_stream request thread_id config;
         media_type := "text/event-stream" |}.

Definition suggest (request : SuggestRequest) : Py SuggestResponse :=
  let generate (final_answer : string) : Py SuggestResponse :=
    let prompt := SUGGESTION_PROMPT_format final_answer in
    response <- response_model_invoke [RoleContent "user" prompt] ;;
    let suggestions := suggestion_lines response in
    ret {| suggestions := suggestions;
           resp_thread_id := suggest_thread_id request |} in
  match req_final_answer request with
  | Some (String c s) => generate (String c s)
  | _ =>
      match suggest_thread_id request with
      | Some (String c s) =>
          let config := Config (String c s) in
          state <- graph_get_state config ;;
          state_messages <- py (getitem_messages state) ;;
          match get_last_ai_answer state_messages with
          | Some (String c' s') => generate (String c' s')
          | _ => ret {| suggestions := [];
                        resp_thread_id := suggest_thread_id request |}
          end
      | _ => ret {| suggestions := []; resp_thread_id := None |}
      end
  end.

End Endpoints.

End Server.

(** ** Vocabulary of the properties *)

(** A request handled from the start: no effect has happened yet. *)
Definition run {A : Type} (m : Py A) : pyresult A * list event := m [].

(** The thread id of a request: the one the client supplied when it is a
    non-empty string, the generated one otherwise. *)
Definition request_thread_id (supplied : option string) (generated : string)
    : string :=
  if truthy supplied
  then match supplied with Some t => t | None => generated end
  else generated.

(** The calls to [uuid.uuid4] a request makes. *)
Definition uuid4_calls (supplied : option string) : list event :=
  if truthy supplied then [] else [CallUuid4].

(** A field the request leaves out.  The code tests the truth value of the
    field, so the empty string counts as left out as [None] does. *)
Definition absent (o : option string) : Prop :=
  o = None \/ o = Some EmptyString.

(** *** Last match in a list *)

(** [x], at index [i], is the last element of [xs] that satisfies [test]. *)
Definition last_where {A : Type} (test : A -> bool) (xs : list A) (i : nat)
    (x : A) : Prop :=
  nth_error xs i = Some x /\ test x = true /\
  forall j y, i < j -> nth_error xs j = Some y -> test y = false.

(** No element of [xs] satisfies [test]. *)
Definition none_where {A : Type} (test : A -> bool) (xs : list A) : Prop :=
  forall x, In x xs -> test x = false.

(** The last [ToolMessage] of the list, if there is one, has a name. *)
Definition last_ToolMessage_named (messages : list message) : Prop :=
  forall i c,
    ~ last_where isinstance_ToolMessage messages i (ToolMessage None c).

(** *** Containment up to case *)

Definition is_upper (c : ascii) : Prop :=
  65 <= nat_of_ascii c <= 90.

(** The same character, or the same letter in the other case. *)
Definition same_letter (a b : ascii) : Prop :=
  a = b \/
  (is_upper a /\ nat_of_ascii b = nat_of_ascii a + 32) \/
  (is_upper b /\ nat_of_ascii a = nat_of_ascii b + 32).

Inductive eq_ignoring_case : string -> string -> Prop :=
| eq_ic_empty : eq_ignoring_case EmptyString EmptyString
| eq_ic_char (a b : ascii) (s t : string) :
    same_letter a b -> eq_ignoring_case s t ->
    eq_ignoring_case (String a s) (String b t).

(** [s] has a substring equal to [needle] up to the case of its letters. *)
Definition contains_ignoring_case (needle s : string) : Prop :=
  exists before mid after,
    s = before ++ mid ++ after /\ eq_ignoring_case mid needle.

(** *** The node updates of a stream, in the order the graph produced them *)

(** The [n]-th (chunk, node) pair of [chunks], counted from 0 through the
    chunks in order and through the items of each chunk in order: it is the
    item [j] of the chunk of index [i], and [step] is [i + 1]. *)
Definition nth_node_update (chunks : list chunk) (n step : nat)
    (node : string) (upd : update) : Prop :=
  exists i chunk j,
    nth_error chunks i = Some chunk /\
    nth_error chunk j = Some (node, upd) /\
    n = length (concat (firstn i chunks)) + j /\
    step = i + 1.

(** What a transport emits for a node update, when it can: [main.py] needs
    the last message of the update. *)
Definition last_message_entry {E : Type} (entry : nat -> string -> string -> E)
    (step : nat) (node : string) (upd : update) : option E :=
  match getitem_last (messages upd) with
  | Ok msg => Some (entry step node (content_or_str msg))
  | Raise _ => None
  end.

(** The [n]-th entry emitted is the one of the [n]-th (chunk, node) pair. *)
Definition in_graph_order {E : Type}
    (render : nat -> string -> update -> option E) (chunks : list chunk)
    (emitted : list E) : Prop :=
  forall n e,
    nth_error emitted n = Some e ->
    exists step node upd,
      nth_node_update chunks n step node upd /\ render step node upd = Some e.

(** The same through the list of the pairs, each with its step. *)
Definition node_updates_from (start : nat) (chunks : list chunk)
    : list (nat * string * update) :=
  flat_map (fun '(step, chunk) => map (fun '(node, upd) => (step, node, upd)) chunk)
           (enumerate start chunks).

Definition relays {X E : Type} (render : X -> option E) (items : list X)
    (emitted : list E) : Prop :=
  forall n e,
    nth_error emitted n = Some e ->
    exists x, nth_error items n = Some x /\ render x = Some e.

(** The entries of the longest prefix of [items] that can be rendered. *)
Fixpoint rendered_prefix {X E : Type} (render : X -> option E)
    (items : list X) : list E :=
  match items with
  | [] => []
  | x :: items' =>
      match render x with
      | Some e => e :: rendered_prefix render items'
      | None => []
      end
  end.


(** Every node update of the stream has a message. *)
Definition all_have_messages (chunks : list chunk) : Prop :=
  forall node upd, In (node, upd) (concat chunks) -> messages upd <> [].

(** *** What the clients of [main.py] are sent *)

(** The frame that opens a stream and carries the thread id, a step frame,
    and the frame that ends a stream. *)
Definition init_frame (thread_id : string) : json :=
  JObj [("event", JStr "init"); ("thread_id", JStr thread_id)].



(** The SSE item that carries a frame: one [data:] field, then a blank
    line. *)
Definition sse_item (json_dumps : json -> string) (frame : json) : string :=
  "data: " ++ json_dumps frame ++ nl ++ nl.


(** *** The prompt of [/suggest] *)

(** The fixed template, with the final answer in the place of its
    placeholder. *)
Definition suggestion_prompt (final_answer : string) : string :=
"
You are an assistant that generates follow-up query suggestions.

Rules:
- Use the provided final answer.
- If the final answer contains a question, generate possible answers to that question.
- If the final answer is neutral, suggest queries related to Cloud Computing Cell (CCC) and related to the neutral answer.
- Generate between 2 and 3 suggestions.
- Each suggestion must contain 3 to 6 words.
- Do NOT number the suggestions.
- Do NOT use bullets.

Final Answer:
" ++ final_answer ++ "
".

(** *** Reading the transports *)



(** The events of [/chat/stream]: each is yielded as an event line followed
    by a data line. *)
Fixpoint sse_events (items : list string) : list (string * string) :=
  match items with
  | event_line :: data_line :: items' =>
      (event_line, data_line) :: sse_events items'
  | _ => []
  end.

Definition is_node_event (ev : string * string) : bool :=
  fst ev =? "event: node" ++ nl.


Definition thread_event (thread_id : string) : string * string :=
  ("event: thread" ++ nl, "data: " ++ thread_id ++ nl ++ nl).

Definition node_event (node : string) : string * string :=
  ("event: node" ++ nl, "data: 🔹 Node: " ++ node ++ nl ++ nl).

Definition chat_done_event : string * string :=
  ("event: done" ++ nl, "data: end" ++ nl ++ nl).

(** *** The loops of the transports, per node update *)

(** What each transport renders for a node update with its step. *)
Definition log_entry_of (item : nat * string * update) : option string :=
  let '(step, node, upd) := item in
  last_message_entry Main.step_entry step node upd.

Definition sse_step_of (json_dumps : json -> string)
    (item : nat * string * update) : option string :=
  let '(step, node, upd) := item in
  last_message_entry
    (fun step node content =>
       Main.sse_data json_dumps (Main.step_event step node content))
    step node upd.

Definition step_frame_of (item : nat * string * update) : option json :=
  let '(step, node, upd) := item in
  last_message_entry Main.step_event step node upd.

(** The content [run_graph] reads in a node update. *)
Definition content_of (item : nat * string * update) : string :=
  let '(_, _, upd) := item in
  match getitem_last (messages upd) with
  | Ok msg => content_or_str msg
  | Raise _ => EmptyString
  end.

(** The body of the inner loop of [run_graph]. *)
Definition run_graph_update (item : nat * string * update)
    (vars : string * list string) : Py (string * list string) :=
  let '(step, node, update) := item in
  let '(final_answer, steps_log) := vars in
  msg <- py (getitem_last (messages update)) ;;
  let content := content_or_str msg in
  ret (content, (steps_log ++ [Main.step_entry step node content])%list).

(** The body of the inner loop of [sse_graph_stream]. *)
Definition sse_update (json_dumps : json -> string)
    (item : nat * string * update) (_ : unit) : Py unit :=
  let '(step, node, update) := item in
  msg <- py (getitem_last (messages update)) ;;
  yield (Main.sse_data json_dumps
           (Main.step_event step node (content_or_str msg))) ;;
  time_sleep.

(** The body of the inner loop of [query_ws]. *)
Definition ws_update (websocket : WebSocket)
    (item : nat * string * update) (_ : unit) : Py unit :=
  let '(step, node, update) := item in
  msg <- py (getitem_last (messages update)) ;;
  ws_send_json websocket (Main.step_event step node (content_or_str msg)).

(** The lines [event_stream] yields for a message and for a node update. *)
Definition message_lines (msg : message) : list string :=
  match msg with
  | AIMessage content =>
      ["event: message" ++ nl; "data: " ++ content ++ nl ++ nl]
  | ToolMessage name _ =>
      ["event: tool" ++ nl; "data: Tool=" ++ str_optional name ++ nl ++ nl]
  | _ => []
  end.

Definition node_lines (item : string * update) : list string :=
  let '(node, upd) := item in
  ("event: node" ++ nl) :: ("data: 🔹 Node: " ++ node ++ nl ++ nl)
  :: flat_map message_lines (messages upd).

(** The bodies of the loops of [event_stream], over the messages of a node
    update and over the node updates. *)
Definition event_message (msg : message) (_ : unit) : Py unit :=
  match msg with
  | AIMessage content =>
      yield ("event: message" ++ nl) ;;
      yield ("data: " ++ content ++ nl ++ nl)
  | ToolMessage name _ =>
      yield ("event: tool" ++ nl) ;;
      yield ("data: Tool=" ++ str_optional name ++ nl ++ nl)
  | _ => ret tt
  end.

Definition event_update (item : string * update) (_ : unit) : Py unit :=
  let '(node, update) := item in
  yield ("event: node" ++ nl) ;;
  yield ("data: 🔹 Node: " ++ node ++ nl ++ nl) ;;
  for_in (messages update) tt event_message.

(** The statements of the [try] block of [query_ws]. *)
Definition query_ws_try (graph : Graph) (uuid4 : string)
    (websocket : WebSocket) : Py unit :=
  data <- ws_receive_json websocket ;;
  query <- py (getitem_query data) ;;
  thread_id <- or_else (data_thread_id data) (Main.str_uuid4 uuid4) ;;
  ws_send_json websocket (Main.init_event thread_id) ;;
  let config := Config thread_id in
  s <- Main.graph_stream_call graph [RoleContent "user" query] config ;;
  for_in_enumerate_stream s tt
    (fun '(step, chunk) _ =>
       for_in chunk tt
         (fun '(node, update) _ =>
            msg <- py (getitem_last (messages update)) ;;
            let content := content_or_str msg in
            ws_send_json websocket (Main.step_event step node content))) ;;
  ws_send_json websocket Main.done_event.

(** A frame that reached the client. *)
Definition sent (frame : json) : event := WsSendJson frame true.


(** ** Example inputs *)

Definition example_stream : graph_stream :=
  GraphStream
    [[("agent", Update [HumanMessage "q"; AIMessage "a1"]);
      ("tools", Update [ToolMessage (Some "retrieve_docs") "doc"])];
     [];
     [("generate", Update [AIMessage "final"])]]
    None.

(** A node update without a message. *)
Definition empty_update_stream : graph_stream :=
  GraphStream [[("agent", Update [])]] None.


Definition example_graph (s : graph_stream) : Graph :=
  {| invoke := fun _ _ =>
       Ok [HumanMessage "q"; ToolMessage (Some "retrieve_docs") "doc"];
     stream := fun _ _ => s;
     get_state :=
       fun _ => Ok (StateSnapshot [HumanMessage "q"; AIMessage "final"]) |}.

(** A graph whose [get_state] returns a plain mapping. *)
Definition mapping_state_graph : Graph :=
  {| invoke := fun _ _ => Ok [HumanMessage "q"; AIMessage "final"];
     stream := fun _ _ => example_stream;
     get_state :=
       fun _ => Ok (StateMapping (Some [HumanMessage "q"; AIMessage "final"]))
  |}.

(** A graph whose tool message was built without a name. *)
Definition nameless_tool_graph : Graph :=
  {| invoke := fun _ _ => Ok [HumanMessage "q"; ToolMessage None "doc"];
     stream := fun _ _ => example_stream;
     get_state :=
       fun _ => Ok (StateSnapshot [HumanMessage "q"; AIMessage "final"]) |}.

(** A stand-in for [json.dumps] where a concrete function is needed. *)
Definition example_dumps (obj : json) : string :=
  match obj with
  | JObj (("event", JStr name) :: _) => name
  | _ => EmptyString
  end.

Definition example_websocket : WebSocket :=
  {| accept_raises := None;
     receive_json_result := Ok (WsData (Some "q") None);
     send_json_raises := fun _ => None;
     close_raises := None |}.



Definition example_chat_request : Server.ChatRequest :=
  {| Server.req_query := "q"; Server.req_thread_id := None |}.

Definition example_query_request : Main.QueryRequest :=
  {| Main.req_query := "q"; Main.req_thread_id := Some "t" |}.

Definition example_suggest_request : Server.SuggestRequest :=
  {| Server.req_final_answer := None; Server.suggest_thread_id := Some "t" |}.

(** A stand-in for the hosted model. *)
Definition example_model (input : list input_message) : pyresult string :=
  Ok ("- What is CCC" ++ nl ++ "- How to join").

(** ** [src/frontend_streamlit.py] *)

Module Frontend.

(** An entry of [st.session_state.messages]:
    [{"role": ..., "content": ...}]. *)
Record turn : Type := Turn { role : string; content : string }.

(** The local variables of the streaming loop, and what the two placeholders
    of the page were given to show, in order. *)
Record loop_vars : Type := {
  final_answer : string;
  debug_logs : list string;
  answer_shown : list string;
  debug_shown : list string
}.

(** [sep.join(xs)] *)
Fixpoint join (sep : string) (xs : list string) : string :=
  match xs with
  | [] => EmptyString
  | [x] => x
  | x :: xs' => x ++ sep ++ join sep xs'
  end.

(** The body of the loop over [update["messages"]]. *)
Definition on_message (msg : message) (vars : loop_vars) : Py loop_vars :=
  match msg with
  | ToolMessage name content =>
      let used := "🛠️ **Tool Used:** `" ++ str_optional name ++ "`" in
      let output :=
        "📤 **Tool Output:**" ++ nl ++ "```" ++ nl ++ content ++ nl ++ "```" in
      ret {| final_answer := final_answer vars;
             debug_logs := (debug_logs vars ++ [used; output])%list;
             answer_shown := answer_shown vars;
             debug_shown := debug_shown vars |}
  | AIMessage content =>
      ret {| final_answer := content;
             debug_logs := debug_logs vars;
             answer_shown := (answer_shown vars ++ [content])%list;
             debug_shown := debug_shown vars |}
  | HumanMessage content =>
      let internal := "✏️ **Internal User Message:** " ++ content in
      ret {| final_answer := final_answer vars;
             debug_logs := (debug_logs vars ++ [internal])%list;
             answer_shown := answer_shown vars;
             debug_shown := debug_shown vars |}
  | PlainObject _ => ret vars
  end.

Section Page.

Variable graph : Graph.
(** [st.session_state.thread_id] *)
Variable thread_id : string.

(** The block run when the user has typed [user_input]: it gives the outcome
    of the block with the variables of the loop, the session messages as the
    block leaves them, and the calls made. *)
Definition on_user_input (session : list turn) (user_input : option string)
    : pyresult (option loop_vars) * list turn * list event :=
  let config := Config thread_id in
  match user_input with
  | Some (String c s) =>
      let user_input := String c s in
      let session := (session ++ [Turn "user" user_input])%list in
      let vars := {| final_answer := EmptyString; debug_logs := [];
                     answer_shown := []; debug_shown := [] |} in
      match
        run (perform (CallStream [InputMessage (HumanMessage user_input)]
                        config) ;;
             for_in_stream
               (stream graph [InputMessage (HumanMessage user_input)] config)
               vars
               (fun chunk vars =>
                  for_in chunk vars
                    (fun '(node_name, update) vars =>
                       let node_log := "🔹 **Node:** `" ++ node_name ++ "`" in
                       let vars :=
                         {| final_answer := final_answer vars;
                            debug_logs := (debug_logs vars ++ [node_log])%list;
                            answer_shown := answer_shown vars;
                            debug_shown := debug_shown vars |} in
                       vars <- for_in (messages update) vars on_message ;;
                       let joined := join (nl ++ nl) (debug_logs vars) in
                       ret {| final_answer := final_answer vars;
                              debug_logs := debug_logs vars;
                              answer_shown := answer_shown vars;
                              debug_shown :=
                                (debug_shown vars ++ [joined])%list |})))
      with
      | (Ok vars, log) =>
          (Ok (Some vars),
           (session ++ [Turn "assistant" (final_answer vars)])%list, log)
      | (Raise e, log) => (Raise e, session, log)
      end
  | _ => (Ok None, session, [])
  end.

End Page.

End Frontend.

(** ** Vocabulary of the further properties *)

(** [s.endswith(suffix)] *)
Definition endswith (suffix s : string) : bool :=
  startswith (reversed_str suffix) (reversed_str s).

(** The frames that reached the client, in order. *)
Definition sent_frames (log : list event) : list json :=
  flat_map (fun ev => match ev with
                      | WsSendJson frame true => [frame]
                      | _ => []
                      end) log.

(** The outcomes of the sends attempted, in order. *)
Definition send_outcomes (log : list event) : list bool :=
  flat_map (fun ev => match ev with
                      | WsSendJson _ delivered => [delivered]
                      | _ => []
                      end) log.

(** All the messages of the node updates of a stream, in order. *)
Definition all_messages (chunks : list chunk) : list message :=
  flat_map (fun item : string * update => messages (snd item)) (concat chunks).

Definition ai_contents (msgs : list message) : list string :=
  flat_map (fun msg => match msg with AIMessage c => [c] | _ => [] end) msgs.

(** The names of the [ToolMessage]s, as an f-string prints them. *)
Definition tool_names (msgs : list message) : list string :=
  flat_map (fun msg => match msg with
                       | ToolMessage n _ => [str_optional n]
                       | _ => []
                       end)
           msgs.

Definition is_message_event (ev : string * string) : bool :=
  fst ev =? "event: message" ++ nl.

Definition is_tool_event (ev : string * string) : bool :=
  fst ev =? "event: tool" ++ nl.

(** A text without a line break: a client of SSE ends a line at a line
    feed and at a carriage return. *)
Definition single_line (text : string) : Prop :=
  str_in nl text = false /\
  str_in (String "013"%char EmptyString) text = false.

(** An event of [/chat/stream] as a client of SSE reads it: one of the five
    event lines, then one [data:] line and the blank line that ends the
    event. *)
Definition well_framed (ev : string * string) : Prop :=
  In (fst ev)
     ["event: thread" ++ nl; "event: node" ++ nl; "event: message" ++ nl;
      "event: tool" ++ nl; "event: done" ++ nl] /\
  exists payload,
    snd ev = "data: " ++ payload ++ nl ++ nl /\ single_line payload.

(** Some node update of the stream has no message. *)
Definition some_update_is_empty (chunks : list chunk) : Prop :=
  exists node upd, In (node, upd) (concat chunks) /\ messages upd = [].

(** A graph whose thread holds a tool call and its answer. *)
Definition answering_graph : Graph :=
  {| invoke := fun _ _ =>
       Ok [HumanMessage "q"; AIMessage EmptyString;
           ToolMessage (Some "retrieve_docs") "doc"; AIMessage "answer"];
     stream := fun _ _ => example_stream;
     get_state := fun _ => Raise RuntimeError |}.

(** A connection that delivers the request and drops at the third send. *)
Definition dropping_websocket : WebSocket :=
  {| accept_raises := None;
     receive_json_result := Ok (WsData (Some "q") (Some "t"));
     send_json_raises :=
       fun n => if (n =? 2)%nat then Some WebSocketDisconnect else None;
     close_raises := None |}.

(** A request without a ["query"] key. *)
Definition queryless_websocket : WebSocket :=
  {| accept_raises := None;
     receive_json_result := Ok (WsData None (Some "t"));
     send_json_raises := fun _ => None;
     close_raises := None |}.

(** A stream that raises after its chunks. *)
Definition interrupted_stream : graph_stream :=
  GraphStream (yielded example_stream) (Some RuntimeError).

(** The lines a message adds to the execution trace of the page. *)
Definition trace_lines_of_message (msg : message) : list string :=
  match msg with
  | ToolMessage name content =>
      let used := "🛠️ **Tool Used:** `" ++ str_optional name ++ "`" in
      let output :=
        "📤 **Tool Output:**" ++ nl ++ "```" ++ nl ++ content ++ nl ++ "```" in
      [used; output]
  | HumanMessage content =>
      let internal := "✏️ **Internal User Message:** " ++ content in
      [internal]
  | _ => []
  end.

(** The lines a node update adds to the execution trace of the page. *)
Definition trace_lines_of_node (item : string * update) : list string :=
  let node_log := "🔹 **Node:** `" ++ fst item ++ "`" in
  (node_log :: flat_map trace_lines_of_message (messages (snd item)))%list.

(** What the trace placeholder is given after each of the node updates
    [items], the trace holding [logs] before them. *)
Fixpoint trace_renderings (logs : list string) (items : list (string * update))
    : list string :=
  match items with
  | [] => []
  | item :: items' =>
      let logs' := (logs ++ trace_lines_of_node item)%list in
      Frontend.join (nl ++ nl) logs' :: trace_renderings logs' items'
  end.

(** The body of the loop of the page over [chunk.items()]. *)
Definition page_update (item : string * update) (vars : Frontend.loop_vars)
    : Py Frontend.loop_vars :=
  let '(node_name, update) := item in
  let node_log := "🔹 **Node:** `" ++ node_name ++ "`" in
  let vars :=
    {| Frontend.final_answer := Frontend.final_answer vars;
       Frontend.debug_logs := (Frontend.debug_logs vars ++ [node_log])%list;
       Frontend.answer_shown := Frontend.answer_shown vars;
       Frontend.debug_shown := Frontend.debug_shown vars |} in
  vars <- for_in (messages update) vars Frontend.on_message ;;
  let joined := Frontend.join (nl ++ nl) (Frontend.debug_logs vars) in
  ret {| Frontend.final_answer := Frontend.final_answer vars;
         Frontend.debug_logs := Frontend.debug_logs vars;
         Frontend.answer_shown := Frontend.answer_shown vars;
         Frontend.debug_shown :=
           (Frontend.debug_shown vars ++ [joined])%list |}.

(** * Properties *)

(** ** The last match of a loop over [reversed(xs)] *)

Section LastMatch.

Context {A B : Type} (select : A -> option B).

Lemma first_return_rev_snoc (xs : list A) (x : A) :
  Server.first_return select (rev (xs ++ [x])) =
  match select x with
  | Some b => Some b
  | None => Server.first_return select (rev xs)
  end.
Proof. rewrite rev_app_distr. reflexivity. Qed.

Lemma nth_error_snoc_last (xs : list A) (x : A) :
  nth_error (xs ++ [x]) (length xs) = Some x.
Proof.
  rewrite nth_error_app2 by lia. now rewrite Nat.sub_diag.
Qed.

Lemma first_return_rev_none (xs : list A) :
  Server.first_return select (rev xs) = None <->
  forall x, In x xs -> select x = None.
Proof.
  induction xs as [|x xs IH] using rev_ind.
  - simpl. split; [intros _ x [] | reflexivity].
  - rewrite first_return_rev_snoc. destruct (select x) as [b|] eqn:Hx.
    + split; [discriminate|]. intros H.
      rewrite (H x) in Hx by (apply in_or_app; right; now left).
      discriminate.
    + rewrite IH. split.
      * intros H y Hy. apply in_app_or in Hy as [Hy|[<-|[]]]; auto.
      * intros H y Hy. apply H, in_or_app. now left.
Qed.

Lemma first_return_rev_some (xs : list A) (b : B) :
  Server.first_return select (rev xs) = Some b <->
  exists i x,
    nth_error xs i = Some x /\ select x = Some b /\
    forall j y, i < j -> nth_error xs j = Some y -> select y = None.
Proof.
  induction xs as [|x xs IH] using rev_ind.
  - simpl. split; [discriminate|].
    intros (i & x & H & _). destruct i; discriminate.
  - rewrite first_return_rev_snoc. destruct (select x) as [b0|] eqn:Hx.
    + split.
      * intros [= ->]. exists (length xs), x. split; [|split]; auto.
        -- apply nth_error_snoc_last.
        -- intros j y Hj Hy.
           assert (Hlen : j < length (xs ++ [x]))
             by (apply nth_error_Some; congruence).
           rewrite length_app in Hlen. simpl in Hlen. lia.
      * intros (i & x0 & Hi & Hsel & Hlast).
        destruct (Nat.lt_trichotomy i (length xs)) as [Hlt|[->|Hgt]].
        -- rewrite (Hlast (length xs) x Hlt (nth_error_snoc_last xs x)) in Hx.
           discriminate.
        -- rewrite nth_error_snoc_last in Hi. congruence.
        -- assert (Hlen : i < length (xs ++ [x]))
             by (apply nth_error_Some; congruence).
           rewrite length_app in Hlen. simpl in Hlen. lia.
    + rewrite IH. split.
      * intros (i & x0 & Hi & Hsel & Hlast). exists i, x0.
        assert (Hlt : i < length xs) by (apply nth_error_Some; congruence).
        split; [|split]; auto.
        -- now rewrite nth_error_app1.
        -- intros j y Hj Hy.
           destruct (Nat.lt_ge_cases j (length xs)) as [Hj'|Hj'].
           ++ rewrite nth_error_app1 in Hy by assumption. eauto.
           ++ rewrite nth_error_app2 in Hy by assumption.
              destruct (j - length xs) as [|k]; simpl in Hy.
              ** congruence.
              ** destruct k; discriminate.
      * intros (i & x0 & Hi & Hsel & Hlast).
        destruct (Nat.lt_ge_cases i (length xs)) as [Hlt|Hge].
        -- exists i, x0. rewrite nth_error_app1 in Hi by assumption.
           split; [|split]; auto.
           intros j y Hj Hy. apply (Hlast j y Hj).
           rewrite nth_error_app1; [assumption|].
           apply nth_error_Some. congruence.
        -- rewrite nth_error_app2 in Hi by assumption.
           destruct (i - length xs) as [|k]; simpl in Hi.
           ++ congruence.
           ++ destruct k; discriminate.
Qed.

End LastMatch.

(** ** Strings: [startswith], [in] and [lower] *)

Lemma startswith_iff (p s : string) :
  startswith p s = true <-> exists rest, s = p ++ rest.
Proof.
  revert s. induction p as [|a p IH]; intros s; simpl.
  - split; [intros _; now exists s | reflexivity].
  - destruct s as [|b s].
    + split; [discriminate | intros [rest H]; discriminate].
    + rewrite andb_true_iff, Ascii.eqb_eq, IH. split.
      * intros [-> [rest ->]]. now exists rest.
      * intros [rest [= -> ->]]. split; [reflexivity | now exists rest].
Qed.

Lemma str_in_iff (needle hay : string) :
  str_in needle hay = true <->
  exists before after, hay = before ++ needle ++ after.
Proof.
  induction hay as [|c hay IH].
  - simpl. rewrite orb_false_r, startswith_iff. split.
    + intros [rest H]. now exists EmptyString, rest.
    + intros (before & after & H). destruct before; [|discriminate].
      now exists after.
  - simpl. rewrite orb_true_iff, startswith_iff, IH. split.
    + intros [[rest H]|(before & after & ->)].
      * now exists EmptyString, rest.
      * now exists (String c before), after.
    + intros (before & after & H). destruct before as [|b before].
      * left. now exists after.
      * right. injection H as -> ->. now exists before, after.
Qed.

Lemma lower_app (s t : string) : lower (s ++ t) = lower s ++ lower t.
Proof. induction s as [|c s IH]; simpl; [reflexivity | now rewrite IH]. Qed.

Lemma lower_app_inv (s a b : string) :
  lower s = a ++ b ->
  exists s1 s2, s = s1 ++ s2 /\ lower s1 = a /\ lower s2 = b.
Proof.
  revert s. induction a as [|c a IH]; intros s H.
  - now exists EmptyString, s.
  - destruct s as [|d s]; [discriminate|]. simpl in H.
    injection H as Hc H. destruct (IH s H) as (s1 & s2 & -> & <- & <-).
    exists (String d s1), s2. simpl. now rewrite Hc.
Qed.

Lemma lower_ascii_upper (c : ascii) :
  is_upper c -> lower_ascii c = ascii_of_nat (nat_of_ascii c + 32).
Proof.
  unfold is_upper, lower_ascii. intros [H1 H2].
  apply Nat.leb_le in H1, H2. cbv zeta. now rewrite H1, H2.
Qed.

Lemma lower_ascii_not_upper (c : ascii) :
  ~ is_upper c -> lower_ascii c = c.
Proof.
  unfold is_upper, lower_ascii. intros H. cbv zeta.
  destruct (65 <=? nat_of_ascii c)%nat eqn:H1; [|reflexivity].
  destruct (nat_of_ascii c <=? 90)%nat eqn:H2; [|reflexivity].
  apply Nat.leb_le in H1, H2. exfalso. apply H. now split.
Qed.

Lemma is_upper_dec (c : ascii) : is_upper c \/ ~ is_upper c.
Proof. unfold is_upper. lia. Qed.

Lemma nat_of_lower_upper (c : ascii) :
  is_upper c -> nat_of_ascii (lower_ascii c) = nat_of_ascii c + 32.
Proof.
  intros H. rewrite (lower_ascii_upper H).
  apply nat_ascii_embedding. unfold is_upper in H. lia.
Qed.

Lemma lower_fixed_not_upper (c : ascii) : lower_ascii c = c -> ~ is_upper c.
Proof.
  intros H Hu. pose proof (nat_of_lower_upper Hu) as Hn.
  rewrite H in Hn. lia.
Qed.

Lemma same_letter_lower (a b : ascii) :
  lower_ascii b = b -> (same_letter a b <-> lower_ascii a = b).
Proof.
  intros Hb. pose proof (lower_fixed_not_upper Hb) as Hnb. split.
  - intros [->|[[Ha Hn]|[Hu _]]]; [assumption| |contradiction].
    rewrite (lower_ascii_upper Ha), <- Hn. apply ascii_nat_embedding.
  - intros H. destruct (is_upper_dec a) as [Ha|Ha].
    + right. left. split; [assumption|].
      rewrite <- H. now apply nat_of_lower_upper.
    + left. now rewrite <- H, (lower_ascii_not_upper Ha).
Qed.

Lemma eq_ignoring_case_lower (mid needle : string) :
  lower needle = needle ->
  (eq_ignoring_case mid needle <-> lower mid = needle).
Proof.
  revert mid. induction needle as [|b needle IH]; intros mid Hn.
  - split.
    + intros H. inversion H. reflexivity.
    + destruct mid; [constructor | discriminate].
  - simpl in Hn. injection Hn as Hb Hn. split.
    + intros H. inversion H as [|a b' s t Hab Hst]; subst. simpl.
      apply (same_letter_lower a Hb) in Hab. apply (IH s Hn) in Hst.
      now rewrite Hab, Hst.
    + destruct mid as [|a mid]; [discriminate|]. simpl. intros [= Ha Hm].
      constructor; [now apply same_letter_lower | now apply IH].
Qed.

(** The test of the code agrees with containment up to case. *)
Lemma str_in_lower_iff (needle s : string) :
  lower needle = needle ->
  (str_in needle (lower s) = true <-> contains_ignoring_case needle s).
Proof.
  intros Hn. rewrite str_in_iff. unfold contains_ignoring_case. split.
  - intros (before & after & H).
    apply lower_app_inv in H as (s1 & s23 & -> & <- & H).
    apply lower_app_inv in H as (s2 & s3 & -> & H2 & <-).
    exists s1, s2, s3. split; [reflexivity|].
    now apply eq_ignoring_case_lower.
  - intros (before & mid & after & -> & H).
    apply (eq_ignoring_case_lower mid Hn) in H.
    exists (lower before), (lower after).
    now rewrite !lower_app, H.
Qed.

(** ** The message extractors of [server.py] *)

Lemma first_return_content (xs : list message) :
  match
    Server.first_return
      (fun msg => if isinstance_AIMessage msg then Some msg else None) xs
  with
  | Some msg =>
      exists c, msg = AIMessage c /\
        Server.first_return
          (fun msg => match msg with AIMessage c => Some c | _ => None end) xs
        = Some c
  | None =>
      Server.first_return
        (fun msg => match msg with AIMessage c => Some c | _ => None end) xs
      = None
  end.
Proof.
  induction xs as [|x xs IH]; simpl; [reflexivity|].
  destruct x; simpl; try exact IH. eauto.
Qed.

Lemma AIMessage_select (x : message) :
  (if isinstance_AIMessage x then Some x else None) = None <->
  isinstance_AIMessage x = false.
Proof. destruct (isinstance_AIMessage x); split; congruence. Qed.

Lemma extract_final_answer_none (messages : list message) :
  Server.extract_final_answer messages = None <->
  none_where isinstance_AIMessage messages.
Proof.
  unfold Server.extract_final_answer, none_where.
  rewrite first_return_rev_none. split; intros H x Hx.
  - apply AIMessage_select; auto.
  - apply AIMessage_select; auto.
Qed.

Lemma extract_final_answer_some (messages : list message) (msg : message) :
  Server.extract_final_answer messages = Some msg <->
  exists i, last_where isinstance_AIMessage messages i msg.
Proof.
  unfold Server.extract_final_answer, last_where.
  rewrite first_return_rev_some. split.
  - intros (i & x & Hi & Hsel & Hlast). exists i.
    destruct (isinstance_AIMessage x) eqn:Hx; [|discriminate].
    injection Hsel as ->. split; [|split]; auto.
    intros j y Hj Hy. apply AIMessage_select. eauto.
  - intros (i & Hi & Hai & Hlast). exists i, msg.
    rewrite Hai. split; [|split]; auto.
    intros j y Hj Hy. apply AIMessage_select. eauto.
Qed.

(** C3: [extract_final_answer] returns the [AIMessage] of highest index in
    the list, and [None] exactly when the list holds no [AIMessage]. *)
Theorem extract_final_answer_last_AIMessage (messages : list message) :
  (forall msg,
     Server.extract_final_answer messages = Some msg <->
     exists i, last_where isinstance_AIMessage messages i msg) /\
  (Server.extract_final_answer messages = None <->
   none_where isinstance_AIMessage messages).
Proof.
  split.
  - intros msg. apply extract_final_answer_some.
  - apply extract_final_answer_none.
Qed.

(** C10: where the list holds an [AIMessage], [get_last_ai_answer] returns
    the [content] of the message [extract_final_answer] returns; where it
    holds none, both return [None]. *)
Theorem get_last_ai_answer_is_content_of_final_answer
    (messages : list message) :
  ((exists m, In m messages /\ isinstance_AIMessage m = true) ->
   exists msg c,
     Server.extract_final_answer messages = Some msg /\
     Server.getattr_content msg = Ok c /\
     Server.get_last_ai_answer messages = Some c) /\
  (none_where isinstance_AIMessage messages ->
   Server.extract_final_answer messages = None /\
   Server.get_last_ai_answer messages = None).
Proof.
  pose proof (first_return_content (rev messages)) as H.
  fold (Server.extract_final_answer messages) in H.
  fold (Server.get_last_ai_answer messages) in H.
  split.
  - intros (m & Hin & Hai).
    destruct (Server.extract_final_answer messages) as [msg|] eqn:E.
    + destruct H as (c & -> & Hc). now exists (AIMessage c), c.
    + apply extract_final_answer_none in E.
      rewrite (E m Hin) in Hai. discriminate.
  - intros Hnone. apply extract_final_answer_none in Hnone.
    rewrite Hnone in H. now split.
Qed.

Lemma ToolMessage_select (x : message) :
  match x with
  | ToolMessage name _ =>
      Some match getattr_lower name with
           | Ok lowered =>
               Ok {| Server.meta_tool_name := name;
                     Server.meta_tool_type :=
                       if str_in "retrieve" lowered then "rag" else "custom" |}
           | Raise e => Raise e
           end
  | _ => None
  end = None <->
  isinstance_ToolMessage x = false.
Proof. destruct x; simpl; split; congruence. Qed.

Lemma extract_tool_metadata_none (messages : list message) :
  none_where isinstance_ToolMessage messages ->
  Server.extract_tool_metadata messages =
  Ok {| Server.meta_tool_name := None; Server.meta_tool_type := "none" |}.
Proof.
  intros Hnone. unfold Server.extract_tool_metadata.
  match goal with
  | |- match ?r with _ => _ end = _ => assert (E : r = None)
  end.
  { apply first_return_rev_none. intros x Hx.
    apply ToolMessage_select. now apply Hnone. }
  now rewrite E.
Qed.

(** The metadata are those of the last [ToolMessage], and building them
    raises when it has no name. *)
Lemma extract_tool_metadata_last (messages : list message) (i : nat)
    (name : option string) (c : string) :
  last_where isinstance_ToolMessage messages i (ToolMessage name c) ->
  Server.extract_tool_metadata messages =
  match getattr_lower name with
  | Ok lowered =>
      Ok {| Server.meta_tool_name := name;
            Server.meta_tool_type :=
              if str_in "retrieve" lowered then "rag" else "custom" |}
  | Raise e => Raise e
  end.
Proof.
  intros (Hi & _ & Hlast). unfold Server.extract_tool_metadata.
  match goal with
  | |- match ?r with _ => _ end = ?m => assert (E : r = Some m)
  end.
  { apply first_return_rev_some. exists i, (ToolMessage name c).
    split; [|split]; auto.
    intros j y Hj Hy. apply ToolMessage_select. eauto. }
  now rewrite E.
Qed.

Lemma extract_tool_metadata_some (messages : list message) (i : nat)
    (name c : string) :
  last_where isinstance_ToolMessage messages i (ToolMessage (Some name) c) ->
  Server.extract_tool_metadata messages =
  Ok {| Server.meta_tool_name := Some name;
        Server.meta_tool_type :=
          if str_in "retrieve" (lower name) then "rag" else "custom" |}.
Proof. intros Hlast. now rewrite (extract_tool_metadata_last Hlast). Qed.

Lemma extract_tool_metadata_nameless (messages : list message) (i : nat)
    (c : string) :
  last_where isinstance_ToolMessage messages i (ToolMessage None c) ->
  Server.extract_tool_metadata messages = Raise AttributeError.
Proof. intros Hlast. now rewrite (extract_tool_metadata_last Hlast). Qed.

(** A list holds no [ToolMessage], or it has a last one. *)
Lemma last_ToolMessage_cases (messages : list message) :
  none_where isinstance_ToolMessage messages \/
  exists i name c,
    last_where isinstance_ToolMessage messages i (ToolMessage name c).
Proof.
  destruct (Server.first_return
              (fun x => if isinstance_ToolMessage x then Some x else None)
              (rev messages)) as [m|] eqn:E.
  - right. rewrite first_return_rev_some in E.
    destruct E as (i & x & Hi & Hsel & Hlast).
    destruct x as [c|c|name c|o]; try discriminate.
    exists i, name, c. split; [exact Hi|]. split; [reflexivity|].
    intros j y Hj Hy. specialize (Hlast j y Hj Hy).
    destruct (isinstance_ToolMessage y); [discriminate | reflexivity].
  - left. rewrite first_return_rev_none in E. intros x Hx.
    specialize (E x Hx).
    destruct (isinstance_ToolMessage x); [discriminate | reflexivity].
Qed.

(** C4, as stated, fails: the name of a [ToolMessage] is optional, and for a
    list whose last [ToolMessage] has none the function raises
    [AttributeError] at [msg.name.lower()] instead of returning. *)
Lemma extract_tool_metadata_raises_without_name :
  last_where isinstance_ToolMessage
    [HumanMessage "q"; ToolMessage None "doc"] 1 (ToolMessage None "doc") /\
  Server.extract_tool_metadata [HumanMessage "q"; ToolMessage None "doc"] =
  Raise AttributeError.
Proof.
  split; [|reflexivity].
  split; [reflexivity|]. split; [reflexivity|].
  intros [|[|[|j]]] y Hj Hy; try lia; discriminate.
Qed.

(** C4, amended: for every list whose last [ToolMessage] has a name,
    [extract_tool_metadata] returns that name, with type ["rag"] exactly
    when the name contains ["retrieve"] up to case and ["custom"] otherwise;
    without a [ToolMessage] it returns the name [None] and the type
    ["none"]. *)
Theorem extract_tool_metadata_last_ToolMessage (messages : list message) :
  (forall i name c,
     last_where isinstance_ToolMessage messages i (ToolMessage (Some name) c) ->
     exists meta,
       Server.extract_tool_metadata messages = Ok meta /\
       Server.meta_tool_name meta = Some name /\
       (Server.meta_tool_type meta = "rag" <->
        contains_ignoring_case "retrieve" name) /\
       (Server.meta_tool_type meta = "custom" <->
        ~ contains_ignoring_case "retrieve" name)) /\
  (none_where isinstance_ToolMessage messages ->
   Server.extract_tool_metadata messages =
   Ok {| Server.meta_tool_name := None; Server.meta_tool_type := "none" |}).
Proof.
  split; [|apply extract_tool_metadata_none].
  intros i name c Hlast.
  rewrite (extract_tool_metadata_some Hlast). eexists. split; [reflexivity|].
  simpl.
  pose proof (@str_in_lower_iff "retrieve" name eq_refl) as Hiff.
  destruct (str_in "retrieve" (lower name)).
  - split; [reflexivity|]. split; split.
    + intros _. now apply Hiff.
    + reflexivity.
    + discriminate.
    + intros Hn. exfalso. now apply Hn, Hiff.
  - split; [reflexivity|]. split; split.
    + discriminate.
    + intros Hc. apply Hiff in Hc. discriminate.
    + intros _ Hc. apply Hiff in Hc. discriminate.
    + reflexivity.
Qed.

(** ** Loops *)

Section Loops.

Context {X V : Type}.

Lemma for_in_ext (body1 body2 : X -> V -> Py V) (xs : list X) :
  (forall x v log, body1 x v log = body2 x v log) ->
  forall v log, for_in xs v body1 log = for_in xs v body2 log.
Proof.
  intros Hext. induction xs as [|x xs IH]; intros v log; simpl.
  - reflexivity.
  - unfold bind. rewrite Hext.
    destruct (body2 x v log) as [[v'|e] log']; [apply IH | reflexivity].
Qed.

Lemma for_in_app (body : X -> V -> Py V) (xs ys : list X) :
  forall v log,
    for_in (xs ++ ys) v body log =
    (v' <- for_in xs v body ;; for_in ys v' body) log.
Proof.
  induction xs as [|x xs IH]; intros v log; simpl.
  - reflexivity.
  - unfold bind in *.
    destruct (body x v log) as [[v'|e] log']; [apply IH | reflexivity].
Qed.

Lemma for_in_map {Y : Type} (f : Y -> X) (body : X -> V -> Py V)
    (ys : list Y) :
  forall v log,
    for_in (map f ys) v body log = for_in ys v (fun y => body (f y)) log.
Proof.
  induction ys as [|y ys IH]; intros v log; simpl.
  - reflexivity.
  - unfold bind.
    destruct (body (f y) v log) as [[v'|e] log']; [apply IH | reflexivity].
Qed.

Lemma for_in_flat_map {Y : Type} (f : Y -> list X) (body : X -> V -> Py V)
    (ys : list Y) :
  forall v log,
    for_in (flat_map f ys) v body log =
    for_in ys v (fun y v' => for_in (f y) v' body) log.
Proof.
  induction ys as [|y ys IH]; intros v log; simpl.
  - reflexivity.
  - rewrite for_in_app. unfold bind.
    destruct (for_in (f y) v body log) as [[v'|e] log'];
      [apply IH | reflexivity].
Qed.

End Loops.

(** The nested loop over the chunks and over the items of each chunk is one
    loop over the node updates. *)
Lemma for_in_chunks {V : Type}
    (body : nat -> string -> update -> V -> Py V) (start : nat)
    (chunks : list chunk) (v : V) (log : list event) :
  for_in (enumerate start chunks) v
    (fun '(step, chunk) v' =>
       for_in chunk v' (fun '(node, upd) v'' => body step node upd v'')) log =
  for_in (node_updates_from start chunks) v
    (fun '(step, node, upd) v' => body step node upd v') log.
Proof.
  unfold node_updates_from. rewrite for_in_flat_map.
  apply for_in_ext. intros [step chunk] v' log'.
  rewrite for_in_map. apply for_in_ext. now intros [node upd] v'' log''.
Qed.

(** ** Node updates by index *)

Lemma node_updates_from_cons (start : nat) (c : chunk) (chunks : list chunk) :
  node_updates_from start (c :: chunks) =
  (map (fun '(node, upd) => (start, node, upd)) c
   ++ node_updates_from (S start) chunks)%list.
Proof. reflexivity. Qed.

Lemma node_updates_from_length (start : nat) (chunks : list chunk) :
  length (node_updates_from start chunks) = length (concat chunks).
Proof.
  revert start. induction chunks as [|c chunks IH]; intros start.
  - reflexivity.
  - rewrite node_updates_from_cons. simpl.
    now rewrite !length_app, length_map, IH.
Qed.

Lemma node_updates_from_nth (chunks : list chunk) :
  forall start n step node upd,
    nth_error (node_updates_from start chunks) n = Some (step, node, upd) ->
    exists i chunk j,
      nth_error chunks i = Some chunk /\
      nth_error chunk j = Some (node, upd) /\
      n = length (concat (firstn i chunks)) + j /\
      step = start + i.
Proof.
  induction chunks as [|c chunks IH]; intros start n step node upd H.
  - destruct n; discriminate.
  - rewrite node_updates_from_cons in H.
    destruct (Nat.lt_ge_cases n (length c)) as [Hlt|Hge].
    + rewrite nth_error_app1 in H by now rewrite length_map.
      rewrite nth_error_map in H.
      destruct (nth_error c n) as [[node' upd']|] eqn:Hn; [|discriminate].
      simpl in H. injection H as <- <- <-.
      exists 0, c, n. simpl. repeat split; auto.
    + rewrite nth_error_app2 in H by now rewrite length_map.
      rewrite length_map in H.
      apply IH in H as (i & chunk & j & Hi & Hj & Hn & ->).
      exists (S i), chunk, j. simpl. rewrite length_app.
      repeat split; auto; lia.
Qed.

Lemma nth_node_update_of_nth (chunks : list chunk) (n step : nat)
    (node : string) (upd : update) :
  nth_error (node_updates_from 1 chunks) n = Some (step, node, upd) ->
  nth_node_update chunks n step node upd.
Proof.
  intros H. apply node_updates_from_nth in H as (i & c & j & Hi & Hj & Hn & ->).
  exists i, c, j. repeat split; auto. lia.
Qed.

(** ** Entries relayed in order *)

Section Relays.

Context {X E : Type} (render : X -> option E).

Lemma relays_nil (items : list X) : relays render items [].
Proof. intros n e H. destruct n; discriminate. Qed.

Lemma relays_cons (x : X) (e : E) (items : list X) (emitted : list E) :
  render x = Some e -> relays render items emitted ->
  relays render (x :: items) (e :: emitted).
Proof.
  intros Hx H [|n] e' Hn; simpl in *.
  - injection Hn as <-. now exists x.
  - now apply H.
Qed.

Lemma relays_rendered_prefix (items : list X) :
  relays render items (rendered_prefix render items).
Proof.
  induction items as [|x items IH]; simpl.
  - apply relays_nil.
  - destruct (render x) as [e|] eqn:Hx.
    + now apply relays_cons.
    + apply relays_nil.
Qed.


Lemma rendered_prefix_length_le (items : list X) :
  length (rendered_prefix render items) <= length items.
Proof.
  induction items as [|x items IH]; simpl; [lia|].
  destruct (render x); simpl; lia.
Qed.

Lemma rendered_prefix_all (items : list X) :
  (forall x, In x items -> render x <> None) ->
  length (rendered_prefix render items) = length items.
Proof.
  induction items as [|x items IH]; intros H; simpl; [reflexivity|].
  destruct (render x) eqn:Hx.
  - simpl. f_equal. apply IH. intros y Hy. apply H. now right.
  - exfalso. apply (H x); [now left | assumption].
Qed.

End Relays.

Lemma in_graph_order_of_relays {E : Type}
    (render : nat -> string -> update -> option E) (chunks : list chunk)
    (emitted : list E) :
  relays (fun '(step, node, upd) => render step node upd)
         (node_updates_from 1 chunks) emitted ->
  in_graph_order render chunks emitted.
Proof.
  intros H n e Hn. destruct (H n e Hn) as ([[step node] upd] & Hx & Hr).
  exists step, node, upd. split; [|assumption].
  now apply nth_node_update_of_nth.
Qed.

(** ** [run_graph] *)

Lemma last_default_irrelevant {A : Type} (l : list A) (d d' : A) :
  l <> [] -> last l d = last l d'.
Proof.
  induction l as [|a l IH]; intros H; [contradiction|].
  destruct l as [|b l]; [reflexivity|].
  simpl in *. apply IH. discriminate.
Qed.

Lemma last_cons_default {A : Type} (a : A) (l : list A) (d : A) :
  last (a :: l) d = last l a.
Proof.
  destruct l as [|b l]; [reflexivity|].
  change (last (a :: b :: l) d) with (last (b :: l) d).
  apply last_default_irrelevant. discriminate.
Qed.

Lemma getitem_last_snoc {A : Type} (xs : list A) (x : A) :
  getitem_last (xs ++ [x]) = Ok x.
Proof. unfold getitem_last. now rewrite rev_app_distr. Qed.

Lemma getitem_last_nonempty {A : Type} (xs : list A) :
  xs <> [] -> exists x, getitem_last xs = Ok x.
Proof.
  intros H. destruct xs as [|a xs] using rev_ind; [contradiction|].
  exists a. apply getitem_last_snoc.
Qed.

Lemma getitem_last_raises {A : Type} (xs : list A) (e : exn) :
  getitem_last xs = Raise e -> e = IndexError /\ xs = [].
Proof.
  destruct xs as [|a xs] using rev_ind.
  - cbv. intros [= <-]. now split.
  - rewrite getitem_last_snoc. discriminate.
Qed.

Lemma run_graph_update_eq (step : nat) (node : string) (upd : update)
    (final_answer : string) (steps_log : list string) (log : list event) :
  run_graph_update (step, node, upd) (final_answer, steps_log) log =
  (match getitem_last (messages upd) with
   | Ok msg =>
       Ok (content_or_str msg,
           (steps_log
            ++ [Main.step_entry step node (content_or_str msg)])%list)
   | Raise e => Raise e
   end, log).
Proof.
  unfold run_graph_update, bind, py, ret.
  destruct (getitem_last (messages upd)); reflexivity.
Qed.

Lemma run_graph_loop (items : list (nat * string * update)) :
  forall final_answer steps_log log,
    for_in items (final_answer, steps_log) run_graph_update log =
    (if (length (rendered_prefix log_entry_of items) =? length items)%nat
     then Ok (last (map content_of items) final_answer,
              (steps_log ++ rendered_prefix log_entry_of items)%list)
     else Raise IndexError,
     log).
Proof.
  induction items as [|[[step node] upd] items IH];
    intros final_answer steps_log log.
  - simpl. now rewrite app_nil_r.
  - cbn [for_in rendered_prefix log_entry_of map content_of length].
    unfold bind. rewrite run_graph_update_eq. unfold last_message_entry.
    destruct (getitem_last (messages upd)) as [msg|e] eqn:Hlast.
    + rewrite IH. cbn [length Nat.eqb].
      rewrite last_cons_default, <- app_assoc. reflexivity.
    + apply getitem_last_raises in Hlast as [-> _]. reflexivity.
Qed.

Section RunGraph.

Variable graph : Graph.
Variable uuid4 : string.

(** [run_graph] in closed form: its only effect is the call of
    [graph.stream]; it raises [IndexError] at the first node update without
    a message, and the exception of the stream when the stream raises. *)
Lemma run_graph_eq (query thread_id : string) (log : list event) :
  let input := [RoleContent "user" query] in
  let cfg := Config thread_id in
  let s := stream graph input cfg in
  let items := node_updates_from 1 (yielded s) in
  Main.run_graph graph query thread_id log =
  (if (length (rendered_prefix log_entry_of items) =? length items)%nat
   then match raised s with
        | None => Ok (last (map content_of items) EmptyString,
                      rendered_prefix log_entry_of items)
        | Some e => Raise e
        end
   else Raise IndexError,
   (log ++ [CallStream input cfg])%list).
Proof.
  intros input cfg s items.
  unfold Main.run_graph, Main.graph_stream_call, for_in_enumerate_stream.
  unfold bind at 1 2. unfold perform, ret at 1.
  fold input cfg s. unfold bind at 1.
  rewrite (for_in_chunks
             (fun step node upd => run_graph_update (step, node, upd))).
  rewrite (for_in_ext _ run_graph_update)
    by (now intros [[step node] upd] v l).
  fold items. rewrite run_graph_loop.
  destruct (length (rendered_prefix log_entry_of items) =? length items)%nat;
    [|reflexivity].
  unfold bind, outcome. destruct (raised s); reflexivity.
Qed.

End RunGraph.

(** ** [sse_graph_stream] *)

Lemma for_in_chunks_gen {V : Type} (inline : nat * chunk -> V -> Py V)
    (body : nat * string * update -> V -> Py V) (chunks : list chunk) :
  (forall step chunk v log,
     inline (step, chunk) v log =
     for_in (map (fun '(node, upd) => (step, node, upd)) chunk) v body log) ->
  forall start v log,
    for_in (enumerate start chunks) v inline log =
    for_in (node_updates_from start chunks) v body log.
Proof.
  intros H start v log. unfold node_updates_from. rewrite for_in_flat_map.
  apply for_in_ext. intros [step chunk] v' log'. apply H.
Qed.

Lemma sse_update_eq (json_dumps : json -> string) (step : nat)
    (node : string) (upd : update) (log : list event) :
  sse_update json_dumps (step, node, upd) tt log =
  match getitem_last (messages upd) with
  | Ok msg =>
      (Ok tt,
       (log ++ [Yield (Main.sse_data json_dumps
                         (Main.step_event step node (content_or_str msg)))])%list)
  | Raise e => (Raise e, log)
  end.
Proof.
  unfold sse_update, bind, py, yield, perform, time_sleep, ret.
  destruct (getitem_last (messages upd)); reflexivity.
Qed.

Lemma sse_loop (json_dumps : json -> string)
    (items : list (nat * string * update)) :
  forall log,
    for_in items tt (sse_update json_dumps) log =
    (if (length (rendered_prefix (sse_step_of json_dumps) items)
         =? length items)%nat
     then Ok tt else Raise IndexError,
     (log ++ map Yield (rendered_prefix (sse_step_of json_dumps) items))%list).
Proof.
  induction items as [|[[step node] upd] items IH]; intros log.
  - simpl. now rewrite app_nil_r.
  - cbn [for_in rendered_prefix sse_step_of length].
    unfold bind. rewrite sse_update_eq. unfold last_message_entry.
    destruct (getitem_last (messages upd)) as [msg|e] eqn:Hlast.
    + rewrite IH. cbn [length Nat.eqb map]. now rewrite <- app_assoc.
    + apply getitem_last_raises in Hlast as [-> _]. simpl.
      now rewrite app_nil_r.
Qed.

Section SseGraphStream.

Variable graph : Graph.
Variable json_dumps : json -> string.

(** [sse_graph_stream] in closed form. *)
Lemma sse_graph_stream_eq (query thread_id : string) (log : list event) :
  let input := [RoleContent "user" query] in
  let cfg := Config thread_id in
  let s := stream graph input cfg in
  let items := node_updates_from 1 (yielded s) in
  let steps := rendered_prefix (sse_step_of json_dumps) items in
  let init := Yield (Main.sse_data json_dumps (Main.init_event thread_id)) in
  let done := Yield (Main.sse_data json_dumps Main.done_event) in
  Main.sse_graph_stream graph json_dumps query thread_id log =
  if (length steps =? length items)%nat
  then match raised s with
       | None =>
           (Ok tt,
            (log ++ [init; CallStream input cfg] ++ map Yield steps
             ++ [done])%list)
       | Some e =>
           (if isinstance_GeneratorExit e then Ok tt else Raise e,
            (log ++ [init; CallStream input cfg] ++ map Yield steps)%list)
       end
  else (Raise IndexError,
        (log ++ [init; CallStream input cfg] ++ map Yield steps)%list).
Proof.
  intros input cfg s items steps init done.
  unfold Main.sse_graph_stream, Main.graph_stream_call,
    for_in_enumerate_stream, try_except, yield.
  unfold bind at 1. unfold perform at 1.
  unfold bind at 1 2. unfold perform at 1. unfold ret at 1.
  fold input cfg s. unfold bind at 1 2.
  rewrite (for_in_chunks_gen _ (sse_update json_dumps)).
  2: { intros step chunk [] l. rewrite for_in_map. apply for_in_ext.
       now intros [node upd] [] l'. }
  fold items. rewrite sse_loop. fold steps.
  rewrite <- !app_assoc.
  destruct (length steps =? length items)%nat; [|reflexivity].
  unfold bind, outcome, perform, ret, raise.
  destruct (raised s) as [e|]; [|now rewrite <- !app_assoc].
  destruct (isinstance_GeneratorExit e); reflexivity.
Qed.

End SseGraphStream.

(** ** [event_stream] *)

Lemma event_message_loop (msgs : list message) :
  forall log,
    for_in msgs tt event_message log =
    (Ok tt, (log ++ map Yield (flat_map message_lines msgs))%list).
Proof.
  induction msgs as [|msg msgs IH]; intros log.
  - simpl. now rewrite app_nil_r.
  - cbn [for_in flat_map]. unfold bind.
    destruct msg; cbn [event_message message_lines];
      unfold yield, perform, bind, ret; rewrite IH, ?map_app;
      cbn [map app]; now rewrite <- ?app_assoc.
Qed.

Lemma event_update_loop (items : list (string * update)) :
  forall log,
    for_in items tt event_update log =
    (Ok tt, (log ++ map Yield (flat_map node_lines items))%list).
Proof.
  induction items as [|[node upd] items IH]; intros log.
  - simpl. now rewrite app_nil_r.
  - cbn [for_in flat_map node_lines]. unfold bind at 1.
    unfold event_update at 1. unfold yield, perform, bind.
    rewrite event_message_loop, IH, !map_app. cbn [map app].
    now rewrite <- !app_assoc.
Qed.

Lemma event_chunk_loop (chunks : list chunk) :
  forall log,
    for_in chunks tt (fun chunk _ => for_in chunk tt event_update) log =
    (Ok tt, (log ++ map Yield (flat_map node_lines (concat chunks)))%list).
Proof.
  induction chunks as [|c chunks IH]; intros log.
  - simpl. now rewrite app_nil_r.
  - cbn [for_in concat]. unfold bind.
    rewrite event_update_loop, IH, flat_map_app, map_app.
    now rewrite <- app_assoc.
Qed.

Section EventStream.

Variable graph : Graph.

(** [event_stream] in closed form: its loops raise nothing, only the graph
    stream can. *)
Lemma event_stream_eq (request : Server.ChatRequest) (thread_id : string)
    (cfg : config) (log : list event) :
  let input := [InputMessage (HumanMessage (Server.req_query request))] in
  let s := stream graph input cfg in
  Server.event_stream graph request thread_id cfg log =
  (match raised s with None => Ok tt | Some e => Raise e end,
   (log
    ++ [Yield (fst (thread_event thread_id));
        Yield (snd (thread_event thread_id)); CallStream input cfg]
    ++ map Yield (flat_map node_lines (concat (yielded s)))
    ++ match raised s with
       | None => [Yield (fst chat_done_event); Yield (snd chat_done_event)]
       | Some _ => []
       end)%list).
Proof.
  intros input s.
  unfold Server.event_stream, Server.graph_stream_call, for_in_stream, yield.
  unfold bind at 1. unfold perform at 1.
  unfold bind at 1. unfold perform at 1.
  unfold bind at 1 2. unfold perform at 1. unfold ret at 1.
  fold input s. unfold bind at 1 2.
  rewrite (for_in_ext _ (fun chunk _ => for_in chunk tt event_update))
    by (intros chunk [] l; apply for_in_ext; now intros [node upd] [] l').
  rewrite event_chunk_loop.
  unfold bind, outcome, perform, ret, raise. cbn [thread_event fst snd].
  destruct (raised s) as [e|]; cbn [chat_done_event fst snd];
    now rewrite <- ?app_assoc, ?app_nil_r.
Qed.

End EventStream.

(** *** Reading the yields *)

Lemma yields_app (l1 l2 : list event) :
  yields (l1 ++ l2) = (yields l1 ++ yields l2)%list.
Proof. apply flat_map_app. Qed.

Lemma yields_map_Yield (items : list string) : yields (map Yield items) = items.
Proof.
  induction items as [|x items IH]; simpl; [reflexivity | now rewrite IH].
Qed.

Lemma sse_events_message_lines (msgs : list message) (rest : list string) :
  sse_events (flat_map message_lines msgs ++ rest) =
  (sse_events (flat_map message_lines msgs) ++ sse_events rest)%list.
Proof.
  induction msgs as [|msg msgs IH]; [reflexivity|].
  cbn [flat_map]. rewrite <- app_assoc.
  destruct msg; cbn [message_lines app sse_events]; now rewrite ?IH.
Qed.

Lemma sse_events_node_lines (items : list (string * update))
    (rest : list string) :
  sse_events (flat_map node_lines items ++ rest) =
  (sse_events (flat_map node_lines items) ++ sse_events rest)%list.
Proof.
  induction items as [|[node upd] items IH]; [reflexivity|].
  cbn [flat_map node_lines app sse_events]. rewrite <- !app_assoc.
  cbn [app sse_events].
  now rewrite !sse_events_message_lines, IH, <- app_assoc.
Qed.

Lemma no_node_event_in_messages (msgs : list message) :
  filter is_node_event (sse_events (flat_map message_lines msgs)) = [].
Proof.
  induction msgs as [|msg msgs IH]; [reflexivity|].
  destruct msg; cbn [flat_map message_lines app sse_events filter];
    exact IH.
Qed.

Lemma node_line_is_node (data : string) :
  is_node_event ("event: node" ++ nl, data) = true.
Proof. reflexivity. Qed.


(** ** [query_ws] *)

Lemma sends_app (l1 l2 : list event) : sends (l1 ++ l2) = sends l1 + sends l2.
Proof. unfold sends. now rewrite filter_app, length_app. Qed.

Lemma or_else_uuid4 (uuid4 : string) (supplied : option string)
    (log : list event) :
  or_else supplied (Main.str_uuid4 uuid4) log =
  (Ok (request_thread_id supplied uuid4),
   (log ++ uuid4_calls supplied)%list).
Proof.
  destruct supplied as [[|c s]|]; cbn; now rewrite ?app_nil_r.
Qed.

Lemma ws_update_eq (websocket : WebSocket) (step : nat) (node : string)
    (upd : update) (log : list event) :
  ws_update websocket (step, node, upd) tt log =
  match getitem_last (messages upd) with
  | Ok msg =>
      ws_send_json websocket
        (Main.step_event step node (content_or_str msg)) log
  | Raise e => (Raise e, log)
  end.
Proof.
  unfold ws_update, bind, py.
  destruct (getitem_last (messages upd)); reflexivity.
Qed.

Lemma ws_loop (websocket : WebSocket) (items : list (nat * string * update)) :
  forall log r log',
    for_in items tt (ws_update websocket) log = (r, log') ->
    exists k tail,
      log' = (log ++ map sent (firstn k (rendered_prefix step_frame_of items))
              ++ tail)%list /\
      ((r = Ok tt /\ tail = [] /\ k = length items /\
        length (rendered_prefix step_frame_of items) = length items) \/
       (r = Raise IndexError /\ tail = [] /\
        length (rendered_prefix step_frame_of items) < length items) \/
       (exists frame e n,
          r = Raise e /\ tail = [WsSendJson frame false] /\
          send_json_raises websocket n = Some e)).
Proof.
  induction items as [|[[step node] upd] items IH]; intros log r log' H.
  - injection H as <- <-. exists 0, []. split.
    + simpl. now rewrite app_nil_r.
    + left. auto.
  - cbn [for_in] in H. unfold bind in H. rewrite ws_update_eq in H.
    cbn [rendered_prefix step_frame_of]. unfold last_message_entry.
    destruct (getitem_last (messages upd)) as [msg|e] eqn:Hlast.
    + unfold ws_send_json in H.
      destruct (send_json_raises websocket (sends log)) as [e|] eqn:Hsend.
      * injection H as <- <-. exists 0. eexists. split; [reflexivity|].
        right. right. do 3 eexists. repeat split. exact Hsend.
      * apply IH in H as (k & tail & -> & Hcases).
        exists (S k), tail. split.
        -- cbn [firstn map]. rewrite <- app_assoc. reflexivity.
        -- cbn [length].
           destruct Hcases as [(-> & -> & -> & Hlen)|[(-> & -> & Hlen)|Hsent]].
           ++ left. auto.
           ++ right. left. repeat split; auto. lia.
           ++ right. right. assumption.
    + injection H as <- <-. apply getitem_last_raises in Hlast as [-> _].
      exists 0, []. split.
      * simpl. now rewrite app_nil_r.
      * right. left. cbn [length]. repeat split; auto. lia.
Qed.

Lemma query_ws_unfold (graph : Graph) (uuid4 : string) (websocket : WebSocket) :
  Main.query_ws graph uuid4 websocket =
  (ws_accept websocket ;;
   try_finally
     (try_except (query_ws_try graph uuid4 websocket)
        isinstance_Exception (ret tt))
     (ws_close websocket)).
Proof. reflexivity. Qed.

(** The handler in closed form, from the outcome of its [try] block. *)
Lemma query_ws_eq (graph : Graph) (uuid4 : string) (websocket : WebSocket) :
  run (Main.query_ws graph uuid4 websocket) =
  match accept_raises websocket with
  | Some e => (Raise e, [WsAccept])
  | None =>
      let (r, log) := query_ws_try graph uuid4 websocket [WsAccept] in
      (match close_raises websocket with
       | Some e => Raise e
       | None =>
           match r with
           | Ok _ => Ok tt
           | Raise e => if isinstance_Exception e then Ok tt else Raise e
           end
       end,
       (log ++ [WsClose])%list)
  end.
Proof.
  rewrite query_ws_unfold.
  unfold run, ws_accept, ws_close, try_finally, try_except, bind, perform,
    outcome, ret, raise.
  cbn [app]. destruct (accept_raises websocket) as [e|]; [reflexivity|].
  destruct (query_ws_try graph uuid4 websocket [WsAccept]) as [[[]|e] log].
  - destruct (close_raises websocket); reflexivity.
  - destruct (isinstance_Exception e), (close_raises websocket); reflexivity.
Qed.

(** What the [try] block does, by the first operation that fails. *)
Lemma query_ws_try_spec (graph : Graph) (uuid4 : string)
    (websocket : WebSocket) (log0 : list event) (r : pyresult unit)
    (log : list event) :
  sends log0 = 0 ->
  query_ws_try graph uuid4 websocket log0 = (r, log) ->
  match receive_json_result websocket with
  | Raise e => r = Raise e /\ log = (log0 ++ [WsReceiveJson])%list
  | Ok data =>
      match data_query data with
      | None => r = Raise KeyError /\ log = (log0 ++ [WsReceiveJson])%list
      | Some query =>
          let tid := request_thread_id (data_thread_id data) uuid4 in
          let input := [RoleContent "user" query] in
          let cfg := Config tid in
          let s := stream graph input cfg in
          let items := node_updates_from 1 (yielded s) in
          let frames := rendered_prefix step_frame_of items in
          let pre :=
            (log0 ++ [WsReceiveJson] ++ uuid4_calls (data_thread_id data))%list in
          match send_json_raises websocket 0 with
          | Some e =>
              r = Raise e /\
              log = (pre ++ [WsSendJson (Main.init_event tid) false])%list
          | None =>
              exists k tail,
                log = (pre ++ [sent (Main.init_event tid); CallStream input cfg]
                       ++ map sent (firstn k frames) ++ tail)%list /\
                ((r = Ok tt /\ tail = [sent Main.done_event] /\
                  k = length items /\ length frames = length items /\
                  raised s = None) \/
                 (exists e,
                    r = Raise e /\ tail = [] /\
                    ((e = IndexError /\ length frames < length items) \/
                     raised s = Some e)) \/
                 (exists frame e n,
                    r = Raise e /\ tail = [WsSendJson frame false] /\
                    send_json_raises websocket n = Some e))
          end
      end
  end.
Proof.
  intros Hsends H. unfold query_ws_try in H.
  unfold bind at 1 in H. unfold ws_receive_json at 1 in H.
  unfold bind at 1 in H. unfold perform at 1, py at 1 in H.
  destruct (receive_json_result websocket) as [data|e].
  2: { injection H as <- <-. auto. }
  unfold bind at 1 in H. unfold py at 1, getitem_query in H.
  destruct (data_query data) as [query|].
  2: { injection H as <- <-. auto. }
  unfold bind at 1 in H. rewrite or_else_uuid4 in H.
  intros tid input cfg s items frames pre.
  fold tid in H. rewrite <- app_assoc in H. fold pre in H.
  assert (Hpre : sends pre = 0).
  { unfold pre. rewrite !sends_app, Hsends.
    destruct (data_thread_id data) as [[|c t]|]; reflexivity. }
  unfold bind at 1 in H. unfold ws_send_json at 1 in H. rewrite Hpre in H.
  destruct (send_json_raises websocket 0) as [e|].
  { injection H as <- <-. auto. }
  unfold bind at 1 in H. unfold Main.graph_stream_call in H.
  unfold bind at 1 in H. unfold perform at 1, ret at 1 in H.
  fold input cfg s in H.
  unfold bind at 1 in H. unfold for_in_enumerate_stream in H.
  unfold bind at 1 in H.
  rewrite (for_in_chunks_gen _ (ws_update websocket)) in H.
  2: { intros step chunk [] l. rewrite for_in_map. apply for_in_ext.
       now intros [node upd] [] l'. }
  fold items in H.
  destruct (for_in items tt (ws_update websocket) _) as [r1 l1] eqn:Hloop.
  apply ws_loop in Hloop as (k & tail & -> & Hcases). fold frames in Hcases |- *.
  destruct Hcases as [(-> & -> & -> & Hlen)|[(-> & -> & Hlen)|Hfail]].
  - unfold bind, outcome, ret, raise in H.
    destruct (raised s) as [e|] eqn:Hraised.
    + injection H as <- <-. exists (length items), [].
      split; [unfold sent; now rewrite <- !app_assoc|].
      right. left. exists e. auto.
    + unfold ws_send_json in H.
      destruct (send_json_raises websocket _) as [e|] eqn:Hsend.
      * injection H as <- <-. exists (length items). eexists.
        split; [unfold sent; rewrite <- !app_assoc; cbn [app]; reflexivity|].
        right. right. do 3 eexists. repeat split. exact Hsend.
      * injection H as <- <-. exists (length items), [sent Main.done_event].
        split; [unfold sent; rewrite <- !app_assoc; cbn [app]; reflexivity|].
        left. auto.
  - injection H as <- <-. exists k, [].
    split; [unfold sent; now rewrite <- !app_assoc|].
    right. left. exists IndexError. auto.
  - destruct Hfail as (frame & e & n & -> & -> & Hsend).
    injection H as <- <-. exists k, [WsSendJson frame false].
    split; [unfold sent; now rewrite <- !app_assoc|].
    right. right. exists frame, e, n. auto.
Qed.




(** *** A connection on which every send succeeds *)

Lemma rendered_prefix_map {X E F : Type} (render : X -> option E)
    (f : E -> F) (render' : X -> option F) (items : list X) :
  (forall x, render' x = option_map f (render x)) ->
  rendered_prefix render' items = map f (rendered_prefix render items).
Proof.
  intros H. induction items as [|x items IH]; [reflexivity|].
  cbn [rendered_prefix]. rewrite H.
  destruct (render x); cbn [option_map map]; [now rewrite IH | reflexivity].
Qed.

Lemma sse_steps_of_frames (json_dumps : json -> string)
    (items : list (nat * string * update)) :
  rendered_prefix (sse_step_of json_dumps) items =
  map (Main.sse_data json_dumps) (rendered_prefix step_frame_of items).
Proof.
  apply rendered_prefix_map. intros [[step node] upd].
  unfold sse_step_of, step_frame_of, last_message_entry.
  now destruct (getitem_last (messages upd)).
Qed.

Lemma ws_loop_delivering (websocket : WebSocket)
    (items : list (nat * string * update)) :
  (forall n, send_json_raises websocket n = None) ->
  forall log,
    for_in items tt (ws_update websocket) log =
    (if (length (rendered_prefix step_frame_of items) =? length items)%nat
     then Ok tt else Raise IndexError,
     (log ++ map sent (rendered_prefix step_frame_of items))%list).
Proof.
  intros Hsend.
  induction items as [|[[step node] upd] items IH]; intros log.
  - simpl. now rewrite app_nil_r.
  - cbn [for_in rendered_prefix step_frame_of length].
    unfold bind. rewrite ws_update_eq. unfold last_message_entry.
    destruct (getitem_last (messages upd)) as [msg|e] eqn:Hlast.
    + unfold ws_send_json. rewrite Hsend, IH.
      cbn [length Nat.eqb map]. now rewrite <- app_assoc.
    + apply getitem_last_raises in Hlast as [-> _]. simpl.
      now rewrite app_nil_r.
Qed.

Lemma query_ws_try_delivering (graph : Graph) (uuid4 : string)
    (websocket : WebSocket) (data : ws_data) (query : string)
    (log0 : list event) :
  receive_json_result websocket = Ok data ->
  data_query data = Some query ->
  (forall n, send_json_raises websocket n = None) ->
  let tid := request_thread_id (data_thread_id data) uuid4 in
  let input := [RoleContent "user" query] in
  let s := stream graph input (Config tid) in
  let items := node_updates_from 1 (yielded s) in
  let frames := rendered_prefix step_frame_of items in
  let relayed :=
    (log0 ++ [WsReceiveJson] ++ uuid4_calls (data_thread_id data)
     ++ [sent (Main.init_event tid); CallStream input (Config tid)]
     ++ map sent frames)%list in
  query_ws_try graph uuid4 websocket log0 =
  if (length frames =? length items)%nat
  then match raised s with
       | None => (Ok tt, (relayed ++ [sent Main.done_event])%list)
       | Some e => (Raise e, relayed)
       end
  else (Raise IndexError, relayed).
Proof.
  intros Hrecv Hquery Hsend tid input s items frames relayed.
  unfold query_ws_try.
  unfold bind at 1. unfold ws_receive_json at 1.
  unfold bind at 1. unfold perform at 1, py at 1. rewrite Hrecv.
  unfold bind at 1. unfold py at 1, getitem_query. rewrite Hquery.
  unfold bind at 1. rewrite or_else_uuid4. fold tid.
  unfold bind at 1. unfold ws_send_json at 1. rewrite Hsend.
  unfold bind at 1. unfold Main.graph_stream_call.
  unfold bind at 1. unfold perform at 1, ret at 1.
  fold input s.
  unfold bind at 1. unfold for_in_enumerate_stream.
  unfold bind at 1.
  rewrite (for_in_chunks_gen _ (ws_update websocket)).
  2: { intros step chunk [] l. rewrite for_in_map. apply for_in_ext.
       now intros [node upd] [] l'. }
  fold items. rewrite (@ws_loop_delivering websocket items Hsend). fold frames.
  assert (Hrelayed :
    (((((log0 ++ [WsReceiveJson]) ++ uuid4_calls (data_thread_id data))
       ++ [WsSendJson (Main.init_event tid) true])
      ++ [CallStream input (Config tid)]) ++ map sent frames)%list = relayed).
  { unfold relayed, sent. rewrite <- !app_assoc. reflexivity. }
  rewrite Hrelayed.
  destruct (length frames =? length items)%nat; [|reflexivity].
  unfold bind, outcome, ret, raise.
  destruct (raised s); [reflexivity|].
  unfold ws_send_json. now rewrite Hsend.
Qed.

(** ** C1: the transports relay the node updates in order *)

Lemma node_updates_from_forget (chunks : list chunk) :
  forall start,
    map (fun item : nat * string * update => (snd (fst item), snd item))
        (node_updates_from start chunks) = concat chunks.
Proof.
  induction chunks as [|c chunks IH]; intros start; [reflexivity|].
  rewrite node_updates_from_cons, map_app, IH, map_map. cbn [concat].
  f_equal. rewrite <- (map_id c) at 2. apply map_ext. now intros [node upd].
Qed.


Lemma all_have_messages_rendered {E : Type}
    (entry : nat -> string -> string -> E) (chunks : list chunk) :
  all_have_messages chunks ->
  forall x, In x (node_updates_from 1 chunks) ->
    (let '(step, node, upd) := x in last_message_entry entry step node upd)
    <> None.
Proof.
  intros Hall [[step node] upd] Hin. unfold last_message_entry.
  assert (Hne : messages upd <> []).
  { apply (Hall node). rewrite <- (node_updates_from_forget chunks 1).
    apply in_map_iff. now exists (step, node, upd). }
  destruct (getitem_last_nonempty Hne) as [msg ->]. discriminate.
Qed.










(** ** C2: the answer and the steps of [run_graph] *)

Section Query.

Variable graph : Graph.
Variable uuid4 : string.

Lemma query_eq (req : Main.QueryRequest) :
  let tid := request_thread_id (Main.req_thread_id req) uuid4 in
  run (Main.query graph uuid4 req) =
  (match fst (run (Main.run_graph graph (Main.req_query req) tid)) with
   | Ok (answer, steps) =>
       Ok {| Main.answer := answer; Main.steps := steps;
             Main.thread_id := tid |}
   | Raise e => Raise e
   end,
   (uuid4_calls (Main.req_thread_id req)
    ++ [CallStream [RoleContent "user" (Main.req_query req)] (Config tid)])%list).
Proof.
  intros tid. unfold run, Main.query, bind.
  rewrite or_else_uuid4. fold tid. rewrite !run_graph_eq. cbv zeta.
  cbn [fst app].
  destruct (_ =? _)%nat; [|reflexivity].
  destruct (raised _); reflexivity.
Qed.

End Query.

(** C2, as stated, fails: a node update can hold no message, and then
    [run_graph] raises [IndexError] instead of returning. *)
Lemma run_graph_raises_on_update_without_message :
  concat (yielded empty_update_stream) <> [] /\
  raised empty_update_stream = None /\
  run (Main.run_graph (example_graph empty_update_stream) "q" "t") =
  (Raise IndexError, [CallStream [RoleContent "user" "q"] (Config "t")]).
Proof. split; [discriminate|]. split; reflexivity. Qed.

(** C2, amended: for every non-empty sequence of node updates, each with at
    least one message, yielded by a stream that ends without raising,
    [run_graph] returns the content of the last message of the last node
    update as the answer, and one step entry per (step, node) pair, the
    [n]-th being [Step {step} | Node: {node}\nResponse: {content}] for the
    [n]-th pair; [/query] returns both as they are. *)
Theorem run_graph_returns_last_answer_and_steps (graph : Graph)
    (uuid4 query thread_id : string) :
  let input := [RoleContent "user" query] in
  let s := stream graph input (Config thread_id) in
  raised s = None ->
  all_have_messages (yielded s) ->
  concat (yielded s) <> [] ->
  exists answer steps,
    run (Main.run_graph graph query thread_id) =
    (Ok (answer, steps), [CallStream input (Config thread_id)]) /\
    (exists node upd msg,
       getitem_last (concat (yielded s)) = Ok (node, upd) /\
       getitem_last (messages upd) = Ok msg /\
       answer = content_or_str msg) /\
    length steps = length (concat (yielded s)) /\
    in_graph_order (last_message_entry Main.step_entry) (yielded s) steps /\
    (forall req,
       Main.req_query req = query ->
       request_thread_id (Main.req_thread_id req) uuid4 = thread_id ->
       fst (run (Main.query graph uuid4 req)) =
       Ok {| Main.answer := answer; Main.steps := steps;
             Main.thread_id := thread_id |}).
Proof.
  intros input s Hraised Hmsgs Hne.
  set (items := node_updates_from 1 (yielded s)).
  assert (Hlen : length (rendered_prefix log_entry_of items) = length items).
  { apply rendered_prefix_all.
    apply (all_have_messages_rendered Main.step_entry Hmsgs). }
  assert (Hrun :
    run (Main.run_graph graph query thread_id) =
    (Ok (last (map content_of items) EmptyString,
         rendered_prefix log_entry_of items),
     [CallStream input (Config thread_id)])).
  { unfold run. rewrite run_graph_eq. cbv zeta. fold input s items.
    apply Nat.eqb_eq in Hlen. now rewrite Hlen, Hraised. }
  exists (last (map content_of items) EmptyString),
         (rendered_prefix log_entry_of items).
  split; [exact Hrun|]. split; [|split; [|split]].
  - pose proof (node_updates_from_forget (yielded s) 1) as Hforget.
    fold items in Hforget.
    destruct items as [|x items'] using rev_ind.
    { simpl in Hforget. congruence. }
    clear IHitems'. destruct x as [[step node] upd].
    rewrite map_app in Hforget. cbn [map fst snd] in Hforget.
    exists node, upd.
    assert (Hupd : messages upd <> []).
    { apply (Hmsgs node). rewrite <- Hforget. apply in_or_app.
      right. now left. }
    destruct (getitem_last_nonempty Hupd) as [msg Hmsg]. exists msg.
    split; [|split].
    + rewrite <- Hforget. apply getitem_last_snoc.
    + exact Hmsg.
    + rewrite map_app. cbn [map]. rewrite last_last. cbn [content_of].
      now rewrite Hmsg.
  - unfold items in *. now rewrite Hlen, node_updates_from_length.
  - apply in_graph_order_of_relays.
    apply (relays_rendered_prefix log_entry_of).
  - intros req Hq Htid. rewrite query_eq. cbv zeta. cbn [fst].
    now rewrite Hq, Htid, Hrun.
Qed.

Lemma run_graph_returns_last_answer_and_steps_witness :
  exists answer steps,
    run (Main.run_graph (example_graph example_stream) "q" "t") =
    (Ok (answer, steps), [CallStream [RoleContent "user" "q"] (Config "t")])
    /\ length steps = 3
    /\ fst (run (Main.query (example_graph example_stream) "uuid"
                   example_query_request)) =
       Ok {| Main.answer := answer; Main.steps := steps;
             Main.thread_id := "t" |}.
Proof.
  destruct (@run_graph_returns_last_answer_and_steps
              (example_graph example_stream) "uuid" "q" "t")
    as (answer & steps & Hrun & _ & Hlen & _ & Hquery).
  - reflexivity.
  - intros node upd Hin. simpl in Hin.
    destruct Hin as [[= <- <-]|[[= <- <-]|[[= <- <-]|[]]]]; discriminate.
  - discriminate.
  - exists answer, steps. split; [exact Hrun|]. split; [exact Hlen|].
    now apply Hquery.
Defined.

(** ** C5: the first and the last event of the SSE streams *)




(** ** C6: exceptions in the WebSocket handler *)








(** ** [/chat] *)

Lemma server_or_else_uuid4 (uuid4 : string) (supplied : option string)
    (log : list event) :
  or_else supplied (Server.str_uuid4 uuid4) log =
  (Ok (request_thread_id supplied uuid4),
   (log ++ uuid4_calls supplied)%list).
Proof. exact (or_else_uuid4 uuid4 supplied log). Qed.

Section Chat.

Variable graph : Graph.
Variable uuid4 : string.

(** [chat] in closed form. *)
Lemma chat_eq (request : Server.ChatRequest) :
  let tid := request_thread_id (Server.req_thread_id request) uuid4 in
  let input := [InputMessage (HumanMessage (Server.req_query request))] in
  run (Server.chat graph uuid4 request) =
  (match invoke graph input (Config tid) with
   | Raise e => Raise e
   | Ok messages =>
       match Server.extract_tool_metadata messages with
       | Raise e => Raise e
       | Ok tool_meta =>
           match
             match Server.extract_final_answer messages with
             | Some msg => Server.getattr_content msg
             | None => Ok "I don't know."
             end
           with
           | Raise e => Raise e
           | Ok answer =>
               Ok {| Server.answer := answer;
                     Server.thread_id := tid;
                     Server.tool_type :=
                       Some (Server.meta_tool_type tool_meta);
                     Server.tool_name := Server.meta_tool_name tool_meta |}
           end
       end
   end,
   (uuid4_calls (Server.req_thread_id request)
    ++ [CallInvoke input (Config tid)])%list).
Proof.
  intros tid input. unfold run, Server.chat. unfold bind at 1.
  rewrite server_or_else_uuid4. fold tid.
  unfold Server.graph_invoke, bind, perform, py, ret. fold input. cbn [app].
  destruct (invoke graph input (Config tid)) as [messages|e]; [|reflexivity].
  destruct (Server.extract_tool_metadata messages) as [tool_meta|e];
    [|reflexivity].
  destruct (Server.extract_final_answer messages) as [msg|]; [|reflexivity].
  destruct (Server.getattr_content msg); reflexivity.
Qed.

End Chat.

(** The metadata can be built exactly when the last [ToolMessage], if any,
    has a name. *)
Lemma extract_tool_metadata_returns (messages : list message) :
  last_ToolMessage_named messages <->
  exists meta, Server.extract_tool_metadata messages = Ok meta.
Proof.
  split.
  - intros Hnamed.
    destruct (last_ToolMessage_cases messages)
      as [Hnone|(i & [name|] & c & Hlast)].
    + rewrite (extract_tool_metadata_none Hnone). eauto.
    + rewrite (extract_tool_metadata_some Hlast). eauto.
    + now apply Hnamed in Hlast.
  - intros [meta Hmeta] i c Hlast.
    rewrite (extract_tool_metadata_nameless Hlast) in Hmeta. discriminate.
Qed.

(** C9, as stated, fails: the name of a [ToolMessage] is optional, and when
    the last one has none [extract_tool_metadata] raises [AttributeError]
    at [msg.name.lower()], so that [/chat] fails although the messages hold
    no [AIMessage]. *)
Lemma chat_raises_on_nameless_ToolMessage :
  invoke nameless_tool_graph [InputMessage (HumanMessage "q")] (Config "uuid")
  = Ok [HumanMessage "q"; ToolMessage None "doc"] /\
  none_where isinstance_AIMessage [HumanMessage "q"; ToolMessage None "doc"] /\
  run (Server.chat nameless_tool_graph "uuid" example_chat_request) =
  (Raise AttributeError,
   [CallUuid4; CallInvoke [InputMessage (HumanMessage "q")] (Config "uuid")]).
Proof.
  split; [reflexivity|]. split; [|reflexivity].
  intros m [<-|[<-|[]]]; reflexivity.
Qed.

(** C9, amended: when the messages [graph.invoke] returns hold no
    [AIMessage] and their last [ToolMessage], if there is one, has a name,
    [/chat] does not fail: it answers ["I don't know."], with the tool
    metadata extracted from the same messages. *)
Theorem chat_without_AIMessage (graph : Graph) (uuid4 : string)
    (request : Server.ChatRequest) (messages : list message) :
  let tid := request_thread_id (Server.req_thread_id request) uuid4 in
  invoke graph [InputMessage (HumanMessage (Server.req_query request))]
    (Config tid) = Ok messages ->
  none_where isinstance_AIMessage messages ->
  last_ToolMessage_named messages ->
  exists meta,
    Server.extract_tool_metadata messages = Ok meta /\
    fst (run (Server.chat graph uuid4 request)) =
    Ok {| Server.answer := "I don't know.";
          Server.thread_id := tid;
          Server.tool_type := Some (Server.meta_tool_type meta);
          Server.tool_name := Server.meta_tool_name meta |}.
Proof.
  intros tid Hinvoke Hnone Hnamed.
  apply extract_tool_metadata_returns in Hnamed as [meta Hmeta].
  exists meta. split; [exact Hmeta|].
  rewrite chat_eq. cbv zeta. fold tid.
  rewrite Hinvoke, Hmeta. apply extract_final_answer_none in Hnone.
  now rewrite Hnone.
Qed.

Lemma chat_without_AIMessage_witness :
  exists meta,
    Server.extract_tool_metadata
      [HumanMessage "q"; ToolMessage (Some "retrieve_docs") "doc"] = Ok meta /\
    fst (run (Server.chat (example_graph example_stream) "uuid"
                example_chat_request)) =
    Ok {| Server.answer := "I don't know.";
          Server.thread_id := "uuid";
          Server.tool_type := Some (Server.meta_tool_type meta);
          Server.tool_name := Server.meta_tool_name meta |}.
Proof.
  apply (@chat_without_AIMessage (example_graph example_stream) "uuid"
           example_chat_request
           [HumanMessage "q"; ToolMessage (Some "retrieve_docs") "doc"]
           eq_refl).
  - intros m [<-|[<-|[]]]; reflexivity.
  - intros [|[|[|i]]] c (Hi & _); discriminate.
Defined.

(** ** C8: the thread id of a request *)

Lemma query_stream_eq (graph : Graph) (uuid4 : string)
    (json_dumps : json -> string) (req : Main.QueryRequest) :
  run (Main.query_stream graph uuid4 json_dumps req) =
  (Ok {| Main.content :=
           Main.sse_graph_stream graph json_dumps (Main.req_query req)
             (request_thread_id (Main.req_thread_id req) uuid4);
         Main.media_type := "text/event-stream";
         Main.headers := [("Cache-Control", "no-cache");
                          ("Connection", "keep-alive")] |},
   uuid4_calls (Main.req_thread_id req)).
Proof.
  unfold run, Main.query_stream. unfold bind at 1. now rewrite or_else_uuid4.
Qed.

(** C8: [/chat], [/query], [/query/stream] and [/query/ws] use one thread id
    per request, for the configuration given to the graph and for what the
    client is told: the id the client supplied when it is a non-empty
    string, without a call to [uuid.uuid4]; otherwise the string of the one
    [uuid.uuid4()] the request draws.  The client is told the id in the
    [thread_id] of the response of [/chat] and [/query], and in the init
    frame that opens the stream of [/query/stream] and [/query/ws]. *)
Theorem thread_id_passed_and_echoed (graph : Graph) (uuid4 : string)
    (json_dumps : json -> string) :
  (forall t, t <> EmptyString ->
     request_thread_id (Some t) uuid4 = t /\ uuid4_calls (Some t) = []) /\
  (request_thread_id None uuid4 = uuid4 /\ uuid4_calls None = [CallUuid4]) /\
  (forall request,
     let tid := request_thread_id (Server.req_thread_id request) uuid4 in
     let input := [InputMessage (HumanMessage (Server.req_query request))] in
     exists r,
       run (Server.chat graph uuid4 request) =
       (r, (uuid4_calls (Server.req_thread_id request)
            ++ [CallInvoke input (Config tid)])%list) /\
       (forall resp, r = Ok resp -> Server.thread_id resp = tid)) /\
  (forall req,
     let tid := request_thread_id (Main.req_thread_id req) uuid4 in
     let input := [RoleContent "user" (Main.req_query req)] in
     exists r,
       run (Main.query graph uuid4 req) =
       (r, (uuid4_calls (Main.req_thread_id req)
            ++ [CallStream input (Config tid)])%list) /\
       (forall resp, r = Ok resp -> Main.thread_id resp = tid)) /\
  (forall req,
     let tid := request_thread_id (Main.req_thread_id req) uuid4 in
     let input := [RoleContent "user" (Main.req_query req)] in
     exists resp r rest,
       run (Main.query_stream graph uuid4 json_dumps req) =
       (Ok resp, uuid4_calls (Main.req_thread_id req)) /\
       run (Main.content resp) =
       (r, Yield (sse_item json_dumps (init_frame tid))
           :: CallStream input (Config tid) :: rest)) /\
  (forall websocket data query,
     accept_raises websocket = None ->
     receive_json_result websocket = Ok data ->
     data_query data = Some query ->
     let tid := request_thread_id (data_thread_id data) uuid4 in
     let input := [RoleContent "user" query] in
     exists r delivered rest,
       run (Main.query_ws graph uuid4 websocket) =
       (r, ([WsAccept; WsReceiveJson] ++ uuid4_calls (data_thread_id data)
            ++ WsSendJson (init_frame tid) delivered :: rest)%list) /\
       (delivered = true ->
        exists rest', rest = CallStream input (Config tid) :: rest') /\
       (delivered = false -> rest = [WsClose])).
Proof.
  split; [|split; [|split; [|split; [|split]]]].
  - intros [|c t] Ht; [contradiction | now split].
  - now split.
  - intros request tid input. eexists. rewrite chat_eq. cbv zeta.
    fold tid input. split; [reflexivity|].
    intros resp H.
    destruct (invoke graph input (Config tid)) as [messages|e];
      [|discriminate].
    destruct (Server.extract_tool_metadata messages) as [tool_meta|e];
      [|discriminate].
    destruct (match Server.extract_final_answer messages with
              | Some msg => Server.getattr_content msg
              | None => Ok "I don't know."
              end); [|discriminate].
    now injection H as <-.
  - intros req tid input. eexists. rewrite query_eq. cbv zeta.
    fold tid input. split; [reflexivity|].
    intros resp H.
    destruct (fst (run (Main.run_graph graph (Main.req_query req) tid)))
      as [[answer steps]|e]; [|discriminate].
    now injection H as <-.
  - intros req tid input.
    exists {| Main.content :=
                Main.sse_graph_stream graph json_dumps (Main.req_query req)
                  tid;
              Main.media_type := "text/event-stream";
              Main.headers := [("Cache-Control", "no-cache");
                               ("Connection", "keep-alive")] |}.
    rewrite query_stream_eq. fold tid.
    cbn [Main.content]. unfold run. rewrite sse_graph_stream_eq. cbv zeta.
    fold input.
    change (sse_item json_dumps (init_frame tid))
      with (Main.sse_data json_dumps (Main.init_event tid)).
    destruct (_ =? _)%nat; [destruct (raised _)|];
      do 2 eexists; (split; [reflexivity|]); cbn [app]; reflexivity.
  - intros websocket data query Haccept Hrecv Hquery tid input.
    change (init_frame tid) with (Main.init_event tid).
    rewrite query_ws_eq, Haccept.
    destruct (query_ws_try graph uuid4 websocket [WsAccept]) as [r log]
      eqn:Htry.
    apply query_ws_try_spec in Htry; [|reflexivity].
    rewrite Hrecv, Hquery in Htry. cbv zeta in Htry. fold tid input in Htry.
    destruct (send_json_raises websocket 0) as [e|].
    + destruct Htry as [_ ->]. eexists. exists false, [WsClose].
      split; [|split; [discriminate | reflexivity]].
      f_equal. cbn [app]. now rewrite <- !app_assoc.
    + destruct Htry as (k & tail & -> & _). eexists. exists true. eexists.
      split; [|split; [|discriminate]].
      * f_equal. cbn [app]. rewrite <- !app_assoc. cbn [app]. reflexivity.
      * intros _. eexists. reflexivity.
Qed.

Lemma thread_id_passed_and_echoed_witness :
  (request_thread_id (Some "t") "uuid" = "t" /\ uuid4_calls (Some "t") = []) /\
  (exists resp,
     run (Server.chat answering_graph "uuid"
            {| Server.req_query := "q"; Server.req_thread_id := Some "t" |}) =
     (Ok resp, [CallInvoke [InputMessage (HumanMessage "q")] (Config "t")]) /\
     Server.thread_id resp = "t") /\
  (exists resp r rest,
     run (Main.query_stream (example_graph example_stream) "uuid"
            example_dumps example_query_request) = (Ok resp, []) /\
     run (Main.content resp) =
     (r, Yield (sse_item example_dumps (init_frame "t"))
         :: CallStream [RoleContent "user" "q"] (Config "t") :: rest)) /\
  exists r rest,
    run (Main.query_ws (example_graph example_stream) "uuid"
           example_websocket) =
    (r, [WsAccept; WsReceiveJson; CallUuid4;
         WsSendJson (init_frame "uuid") true;
         CallStream [RoleContent "user" "q"] (Config "uuid")] ++ rest)%list.
Proof.
  pose proof (thread_id_passed_and_echoed answering_graph "uuid" example_dumps)
    as (Hsupplied & _ & Hchat & _).
  pose proof (thread_id_passed_and_echoed (example_graph example_stream)
                "uuid" example_dumps) as (_ & _ & _ & _ & Hsse & Hws).
  split; [|split; [|split]].
  - apply Hsupplied. discriminate.
  - destruct (Hchat {| Server.req_query := "q";
                       Server.req_thread_id := Some "t" |})
      as (r & Hrun & Hecho).
    exists {| Server.answer := "answer";
              Server.thread_id := "t";
              Server.tool_type := Some "rag";
              Server.tool_name := Some "retrieve_docs" |}.
    split; [reflexivity|]. apply Hecho.
    apply (f_equal fst) in Hrun. symmetry. exact Hrun.
  - exact (Hsse example_query_request).
  - destruct (Hws example_websocket (WsData (Some "q") None) "q"
                eq_refl eq_refl eq_refl)
      as (r & [|] & rest & Hrun & Hsent & Hfailed).
    + destruct (Hsent eq_refl) as [rest' ->]. exists r, rest'. exact Hrun.
    + exfalso. rewrite (Hfailed eq_refl) in Hrun. discriminate Hrun.
Defined.

(** ** C7: where [/suggest] takes the final answer from *)

Lemma get_last_ai_answer_some (messages : list message) (c : string) :
  Server.get_last_ai_answer messages = Some c <->
  exists i, last_where isinstance_AIMessage messages i (AIMessage c).
Proof.
  pose proof (first_return_content (rev messages)) as H.
  fold (Server.extract_final_answer messages) in H.
  fold (Server.get_last_ai_answer messages) in H.
  rewrite <- extract_final_answer_some.
  destruct (Server.extract_final_answer messages) as [msg|].
  - destruct H as (c0 & -> & ->). split; congruence.
  - rewrite H. split; discriminate.
Qed.

Lemma get_last_ai_answer_none (messages : list message) :
  Server.get_last_ai_answer messages = None <->
  none_where isinstance_AIMessage messages.
Proof.
  pose proof (first_return_content (rev messages)) as H.
  fold (Server.extract_final_answer messages) in H.
  fold (Server.get_last_ai_answer messages) in H.
  rewrite <- extract_final_answer_none.
  destruct (Server.extract_final_answer messages) as [msg|].
  - destruct H as (c0 & -> & ->). split; discriminate.
  - rewrite H. split; reflexivity.
Qed.

Section Suggest.

Variable graph : Graph.
Variable response_model : list input_message -> pyresult string.

(** The part of [suggest] that follows the choice of the final answer. *)
Lemma suggest_with_final_answer (request : Server.SuggestRequest)
    (c : ascii) (s : string) :
  Server.req_final_answer request = Some (String c s) ->
  exists r,
    run (Server.suggest graph response_model request) =
    (r, [CallModel
           [RoleContent "user" (Server.SUGGESTION_PROMPT_format (String c s))]]).
Proof.
  intros H. unfold run, Server.suggest. rewrite H.
  unfold Server.response_model_invoke, bind, perform, py, ret. cbn [app].
  destruct (response_model _); eexists; reflexivity.
Qed.

Lemma suggest_from_state (request : Server.SuggestRequest)
    (c : ascii) (s : string) :
  absent (Server.req_final_answer request) ->
  Server.suggest_thread_id request = Some (String c s) ->
  run (Server.suggest graph response_model request) =
  match get_state graph (Config (String c s)) with
  | Raise e => (Raise e, [CallGetState (Config (String c s))])
  | Ok st =>
      match getitem_messages st with
      | Raise e => (Raise e, [CallGetState (Config (String c s))])
      | Ok messages =>
          match Server.get_last_ai_answer messages with
          | Some (String c' s') =>
              (match
                 response_model
                   [RoleContent "user"
                      (Server.SUGGESTION_PROMPT_format (String c' s'))]
               with
               | Ok response =>
                   Ok {| Server.suggestions :=
                           Server.suggestion_lines response;
                         Server.resp_thread_id := Some (String c s) |}
               | Raise e => Raise e
               end,
               [CallGetState (Config (String c s));
                CallModel
                  [RoleContent "user"
                     (Server.SUGGESTION_PROMPT_format (String c' s'))]])
          | _ =>
              (Ok {| Server.suggestions := [];
                     Server.resp_thread_id := Some (String c s) |},
               [CallGetState (Config (String c s))])
          end
      end
  end.
Proof.
  intros Habsent Htid. unfold run, Server.suggest. rewrite Htid.
  unfold Server.graph_get_state, Server.response_model_invoke, bind, perform,
    py, ret.
  cbn [app].
  destruct Habsent as [-> | ->];
    (destruct (get_state graph (Config (String c s))) as [st|e];
     [|reflexivity];
     destruct (getitem_messages st) as [messages|e]; [|reflexivity];
     destruct (Server.get_last_ai_answer messages) as [[|c' s']|];
     try reflexivity;
     destruct (response_model _); reflexivity).
Qed.

End Suggest.

Lemma absent_cases (o : option string) :
  absent o \/ exists c s, o = Some (String c s).
Proof.
  destruct o as [[|c s]|]; unfold absent; eauto.
Qed.

Lemma getitem_messages_ok (st : state) (messages : list message) :
  getitem_messages st = Ok messages <-> st = StateMapping (Some messages).
Proof.
  destruct st as [values|[msgs|]]; simpl; split; congruence.
Qed.

(** C7: with neither a final answer nor a thread id, [/suggest] returns no
    suggestion and the thread id [None], and calls neither the graph nor the
    model.  With a thread id only, it loads the state with
    [graph.get_state], and then subscripts what it got with ["messages"]:
    on the [StateSnapshot] a compiled graph returns this raises [TypeError],
    and the request fails there, before the model is invoked.  Where the
    state is a mapping that holds the messages, the code does what it was
    written for: it takes the content of the last [AIMessage] as the final
    answer, and returns no suggestion, with the thread id given, when there
    is none (or when that content is empty).  The model is invoked only with
    the fixed prompt template filled with a final answer obtained from the
    request or in this way.  A field counts as left out when it is [None]
    or empty, which is what the code tests. *)
Theorem suggest_final_answer_sources (graph : Graph)
    (response_model : list input_message -> pyresult string)
    (request : Server.SuggestRequest) :
  (absent (Server.req_final_answer request) ->
   absent (Server.suggest_thread_id request) ->
   run (Server.suggest graph response_model request) =
   (Ok {| Server.suggestions := []; Server.resp_thread_id := None |}, [])) /\
  (absent (Server.req_final_answer request) ->
   forall tid,
     Server.suggest_thread_id request = Some tid -> tid <> EmptyString ->
     exists r rest,
       run (Server.suggest graph response_model request) =
       (r, CallGetState (Config tid) :: rest) /\
       (forall values,
          get_state graph (Config tid) = Ok (StateSnapshot values) ->
          r = Raise TypeError /\ rest = []) /\
       (forall messages,
          get_state graph (Config tid) = Ok (StateMapping (Some messages)) ->
          (none_where isinstance_AIMessage messages ->
           r = Ok {| Server.suggestions := [];
                     Server.resp_thread_id := Some tid |} /\
           rest = []) /\
          (forall i c,
             last_where isinstance_AIMessage messages i (AIMessage c) ->
             (c = EmptyString ->
              r = Ok {| Server.suggestions := [];
                        Server.resp_thread_id := Some tid |} /\
              rest = []) /\
             (c <> EmptyString ->
              rest = [CallModel
                        [RoleContent "user" (suggestion_prompt c)]])))) /\
  (forall input,
     In (CallModel input)
        (snd (run (Server.suggest graph response_model request))) ->
     exists final_answer,
       final_answer <> EmptyString /\
       input = [RoleContent "user" (suggestion_prompt final_answer)] /\
       (Server.req_final_answer request = Some final_answer \/
        (absent (Server.req_final_answer request) /\
         exists tid messages i,
           Server.suggest_thread_id request = Some tid /\
           get_state graph (Config tid) = Ok (StateMapping (Some messages)) /\
           last_where isinstance_AIMessage messages i
             (AIMessage final_answer)))).
Proof.
  change suggestion_prompt with Server.SUGGESTION_PROMPT_format.
  split; [|split].
  - intros [Hfa|Hfa] [Htid|Htid]; unfold run, Server.suggest;
      now rewrite Hfa, Htid.
  - intros Hfa [|c s] Htid Hne; [contradiction|].
    rewrite (suggest_from_state graph response_model request Hfa Htid).
    destruct (get_state graph (Config (String c s))) as [st|e].
    2: { do 2 eexists. split; [reflexivity|]. split; discriminate. }
    destruct st as [values|[messages|]].
    { do 2 eexists. split; [reflexivity|]. split; [now split | discriminate]. }
    2: { do 2 eexists. split; [reflexivity|]. split; discriminate. }
    cbn [getitem_messages].
    destruct (Server.get_last_ai_answer messages) as [[|c' s']|] eqn:Hlast;
      do 2 eexists; (split; [reflexivity|]); (split; [discriminate|]);
      intros ? [= <-]; split.
    + now split.
    + intros i c0 Hc0.
      assert (Hc : Server.get_last_ai_answer messages = Some c0)
        by (apply get_last_ai_answer_some; now exists i).
      rewrite Hlast in Hc. injection Hc as <-.
      split; [now split | intros Hc0'; now contradiction Hc0'].
    + intros Hnone. apply get_last_ai_answer_none in Hnone. congruence.
    + intros i c0 Hc0.
      assert (Hc : Server.get_last_ai_answer messages = Some c0)
        by (apply get_last_ai_answer_some; now exists i).
      rewrite Hlast in Hc. injection Hc as <-.
      split; [discriminate | reflexivity].
    + now split.
    + intros i c0 Hc0.
      assert (Hc : Server.get_last_ai_answer messages = Some c0)
        by (apply get_last_ai_answer_some; now exists i).
      congruence.
  - intros input Hin.
    destruct (absent_cases (Server.req_final_answer request))
      as [Hfa|(c & s & Hfa)].
    2: { destruct (suggest_with_final_answer graph response_model request Hfa)
           as [r Hrun].
         rewrite Hrun in Hin. destruct Hin as [[= <-]|[]].
         exists (String c s). split; [discriminate|]. split; [reflexivity|].
         now left. }
    destruct (absent_cases (Server.suggest_thread_id request))
      as [Htid|(c & s & Htid)].
    { exfalso. revert Hin. unfold run, Server.suggest.
      destruct Hfa as [-> | ->], Htid as [-> | ->]; simpl; tauto. }
    rewrite (suggest_from_state graph response_model request Hfa Htid) in Hin.
    destruct (get_state graph (Config (String c s))) as [st|e] eqn:Hstate.
    2: { destruct Hin as [|[]]; discriminate. }
    destruct (getitem_messages st) as [messages|e] eqn:Hitem.
    2: { destruct Hin as [|[]]; discriminate. }
    apply getitem_messages_ok in Hitem. subst st.
    destruct (Server.get_last_ai_answer messages) as [[|c' s']|] eqn:Hlast;
      try (destruct Hin as [|[]]; discriminate).
    destruct Hin as [|[[= <-]|[]]]; [discriminate|].
    exists (String c' s'). split; [discriminate|]. split; [reflexivity|].
    right. split; [assumption|].
    apply get_last_ai_answer_some in Hlast as [i Hi].
    exists (String c s), messages, i. auto.
Qed.

(** The request that fails: a thread id only, and a graph whose [get_state]
    returns a [StateSnapshot]. *)
Lemma suggest_final_answer_sources_witness :
  run (Server.suggest (example_graph example_stream) example_model
         example_suggest_request) =
  (Raise TypeError, [CallGetState (Config "t")]).
Proof.
  destruct (proj1 (proj2 (suggest_final_answer_sources
                            (example_graph example_stream) example_model
                            example_suggest_request))
              (or_introl eq_refl) "t" eq_refl)
    as (r & rest & Hrun & Hsnapshot & _).
  - discriminate.
  - rewrite Hrun.
    destruct (Hsnapshot [HumanMessage "q"; AIMessage "final"] eq_refl)
      as [-> ->].
    reflexivity.
Defined.

(** ** Instances of the extractor properties *)

Lemma extract_final_answer_last_AIMessage_witness :
  Server.extract_final_answer
    [AIMessage "first"; HumanMessage "q"; AIMessage "last";
     ToolMessage (Some "web_search") "hits"] =
  Some (AIMessage "last").
Proof.
  apply (proj1 (extract_final_answer_last_AIMessage _)).
  exists 2. split; [reflexivity|]. split; [reflexivity|].
  intros [|[|[|[|j]]]] y Hj Hy; try lia.
  - now injection Hy as <-.
  - destruct j; discriminate.
Defined.

Lemma extract_tool_metadata_last_ToolMessage_witness :
  exists meta,
    Server.extract_tool_metadata
      [ToolMessage (Some "web_search") "hits";
       ToolMessage (Some "Retrieve_FAQs_tool") "faq";
       AIMessage "answer"] = Ok meta /\
    Server.meta_tool_name meta = Some "Retrieve_FAQs_tool" /\
    Server.meta_tool_type meta = "rag".
Proof.
  destruct (proj1 (extract_tool_metadata_last_ToolMessage
                     [ToolMessage (Some "web_search") "hits";
                      ToolMessage (Some "Retrieve_FAQs_tool") "faq";
                      AIMessage "answer"])
              1 "Retrieve_FAQs_tool" "faq")
    as (meta & Hmeta & Hname & Hrag & _).
  - split; [reflexivity|]. split; [reflexivity|].
    intros [|[|[|j]]] y Hj Hy; try lia.
    + now injection Hy as <-.
    + destruct j; discriminate.
  - exists meta. split; [exact Hmeta|]. split; [exact Hname|]. apply Hrag.
    exists EmptyString, "Retrieve", "_FAQs_tool". split; [reflexivity|].
    apply eq_ic_char.
    { right. left. split; [|reflexivity].
      split; apply Nat.leb_le; reflexivity. }
    repeat (apply eq_ic_char; [now left|]). apply eq_ic_empty.
Defined.

Lemma get_last_ai_answer_is_content_of_final_answer_witness :
  exists msg c,
    Server.extract_final_answer
      [HumanMessage "q"; AIMessage "a"; ToolMessage (Some "t") "x"] = Some msg /\
    Server.getattr_content msg = Ok c /\
    Server.get_last_ai_answer
      [HumanMessage "q"; AIMessage "a"; ToolMessage (Some "t") "x"] = Some c.
Proof.
  apply (proj1 (get_last_ai_answer_is_content_of_final_answer
                  [HumanMessage "q"; AIMessage "a"; ToolMessage (Some "t") "x"])).
  exists (AIMessage "a"). split; [|reflexivity]. right. now left.
Defined.

(** * Further properties of the code *)

(** ** The extractors over a growing message list *)

Lemma first_return_app {A B : Type} (select : A -> option B)
    (xs ys : list A) :
  Server.first_return select (xs ++ ys) =
  match Server.first_return select xs with
  | Some b => Some b
  | None => Server.first_return select ys
  end.
Proof.
  induction xs as [|x xs IH]; simpl; [reflexivity|].
  destruct (select x); [reflexivity | exact IH].
Qed.

(** X1: over a message list that grew, the later part decides: the last
    [AIMessage] of [earlier ++ later] is the one of [later] when [later]
    holds one, and the one of [earlier] otherwise; the same for
    [get_last_ai_answer]. *)
Theorem extract_final_answer_app (earlier later : list message) :
  Server.extract_final_answer (earlier ++ later) =
  match Server.extract_final_answer later with
  | Some msg => Some msg
  | None => Server.extract_final_answer earlier
  end /\
  Server.get_last_ai_answer (earlier ++ later) =
  match Server.get_last_ai_answer later with
  | Some answer => Some answer
  | None => Server.get_last_ai_answer earlier
  end.
Proof.
  unfold Server.extract_final_answer, Server.get_last_ai_answer.
  rewrite rev_app_distr, !first_return_app. now split.
Qed.

Lemma existsb_ToolMessage_false (messages : list message) :
  existsb isinstance_ToolMessage messages = false <->
  none_where isinstance_ToolMessage messages.
Proof.
  unfold none_where. induction messages as [|m messages IH]; simpl.
  - split; [intros _ x [] | reflexivity].
  - rewrite orb_false_iff, IH. split.
    + intros [Hm H] x [<-|Hx]; auto.
    + intros H. split; [apply H; now left | intros x Hx; apply H; now right].
Qed.

(** X2: what [extract_tool_metadata] gives on [earlier ++ later], the
    metadata or the [AttributeError] of a [ToolMessage] without a name, is
    what it gives on [later] when [later] holds a [ToolMessage], and what it
    gives on [earlier] otherwise: a tool used in an earlier turn of the
    thread decides as long as no later message is a [ToolMessage]. *)
Theorem extract_tool_metadata_app (earlier later : list message) :
  Server.extract_tool_metadata (earlier ++ later) =
  if existsb isinstance_ToolMessage later
  then Server.extract_tool_metadata later
  else Server.extract_tool_metadata earlier.
Proof.
  unfold Server.extract_tool_metadata.
  rewrite rev_app_distr, first_return_app.
  destruct (Server.first_return _ (rev later)) as [returned|] eqn:E.
  - rewrite first_return_rev_some in E.
    destruct E as (i & x & Hi & Hsel & _).
    assert (Hex : existsb isinstance_ToolMessage later = true).
    { apply existsb_exists. exists x. split; [now apply nth_error_In in Hi|].
      destruct (isinstance_ToolMessage x) eqn:Hx; [reflexivity|].
      apply ToolMessage_select in Hx. congruence. }
    now rewrite Hex.
  - rewrite first_return_rev_none in E.
    assert (Hex : existsb isinstance_ToolMessage later = false).
    { apply existsb_ToolMessage_false. intros x Hx.
      apply ToolMessage_select. now apply E. }
    now rewrite Hex.
Qed.

(** X3: [extract_tool_metadata] returns exactly when the last
    [ToolMessage] of the list, if there is one, has a name, and raises
    [AttributeError] otherwise.  The tool type it returns is one of
    ["rag"], ["custom"] and ["none"], and it is ["none"] exactly when the
    tool name is [None], which is exactly when the list holds no
    [ToolMessage]. *)
Theorem extract_tool_metadata_types (messages : list message) :
  (last_ToolMessage_named messages <->
   exists meta, Server.extract_tool_metadata messages = Ok meta) /\
  (forall e,
     Server.extract_tool_metadata messages = Raise e ->
     e = AttributeError /\
     exists i c,
       last_where isinstance_ToolMessage messages i (ToolMessage None c)) /\
  (forall meta,
     Server.extract_tool_metadata messages = Ok meta ->
     (Server.meta_tool_type meta = "rag" \/
      Server.meta_tool_type meta = "custom" \/
      Server.meta_tool_type meta = "none") /\
     (Server.meta_tool_type meta = "none" <->
      Server.meta_tool_name meta = None) /\
     (Server.meta_tool_name meta = None <->
      none_where isinstance_ToolMessage messages)).
Proof.
  split; [apply extract_tool_metadata_returns|].
  destruct (last_ToolMessage_cases messages)
    as [Hnone|(i & [name|] & c & Hlast)].
  - rewrite (extract_tool_metadata_none Hnone).
    split; [discriminate|]. intros meta [= <-]. cbn. tauto.
  - rewrite (extract_tool_metadata_some Hlast).
    split; [discriminate|]. intros meta [= <-]. cbn.
    assert (Hsome : ~ none_where isinstance_ToolMessage messages).
    { intros H. destruct Hlast as (Hi & _).
      apply nth_error_In in Hi. apply H in Hi. discriminate. }
    split; [|split].
    + destruct (str_in "retrieve" (lower name)); auto.
    + destruct (str_in "retrieve" (lower name)); split; discriminate.
    + split; [discriminate | contradiction].
  - rewrite (extract_tool_metadata_nameless Hlast).
    split; [|discriminate]. intros e [= <-]. eauto.
Qed.

Lemma extract_tool_metadata_types_witness :
  Server.meta_tool_type
    {| Server.meta_tool_name := Some "web_search";
       Server.meta_tool_type := "custom" |} = "rag" \/
  Server.meta_tool_type
    {| Server.meta_tool_name := Some "web_search";
       Server.meta_tool_type := "custom" |} = "custom" \/
  Server.meta_tool_type
    {| Server.meta_tool_name := Some "web_search";
       Server.meta_tool_type := "custom" |} = "none".
Proof.
  exact (proj1 (proj2 (proj2 (extract_tool_metadata_types
                                [HumanMessage "q";
                                 ToolMessage (Some "web_search") "hits"]))
                  _ eq_refl)).
Defined.

(** ** [/chat] and [/chat/stream] *)

(** X4: every response of [/chat] comes from messages [graph.invoke]
    returned: its answer is the content of their last [AIMessage], or
    ["I don't know."] when they hold none, and its tool type and tool name
    are the metadata extracted from the same messages. *)
Theorem chat_answers_last_AIMessage (graph : Graph) (uuid4 : string)
    (request : Server.ChatRequest) (resp : Server.ChatResponse) :
  let tid := request_thread_id (Server.req_thread_id request) uuid4 in
  let input := [InputMessage (HumanMessage (Server.req_query request))] in
  fst (run (Server.chat graph uuid4 request)) = Ok resp ->
  exists messages meta,
    invoke graph input (Config tid) = Ok messages /\
    Server.extract_tool_metadata messages = Ok meta /\
    Server.tool_type resp = Some (Server.meta_tool_type meta) /\
    Server.tool_name resp = Server.meta_tool_name meta /\
    (forall i c,
       last_where isinstance_AIMessage messages i (AIMessage c) ->
       Server.answer resp = c) /\
    (none_where isinstance_AIMessage messages ->
     Server.answer resp = "I don't know.").
Proof.
  intros tid input. rewrite chat_eq. cbv zeta. fold tid input. cbn [fst].
  destruct (invoke graph input (Config tid)) as [messages|e]; [|discriminate].
  destruct (Server.extract_tool_metadata messages) as [meta|e] eqn:Hmeta;
    [|discriminate].
  intros H. exists messages, meta. split; [reflexivity|].
  split; [exact Hmeta|].
  destruct (Server.extract_final_answer messages) as [msg|] eqn:Hfinal.
  - destruct (Server.getattr_content msg) as [answer|e] eqn:Hcontent;
      [|discriminate].
    injection H as <-. cbn. split; [reflexivity|]. split; [reflexivity|].
    split.
    + intros i c Hlast.
      assert (Hc : Server.extract_final_answer messages = Some (AIMessage c))
        by (apply extract_final_answer_some; now exists i).
      rewrite Hfinal in Hc. injection Hc as ->. cbn in Hcontent. congruence.
    + intros Hnone. apply extract_final_answer_none in Hnone. congruence.
  - injection H as <-. cbn. split; [reflexivity|]. split; [reflexivity|].
    split; [|reflexivity].
    intros i c Hlast.
    assert (Hc : Server.extract_final_answer messages = Some (AIMessage c))
      by (apply extract_final_answer_some; now exists i).
    congruence.
Qed.

Lemma chat_answers_last_AIMessage_witness :
  exists messages meta,
    invoke answering_graph [InputMessage (HumanMessage "q")] (Config "uuid")
    = Ok messages /\
    Server.extract_tool_metadata messages = Ok meta /\
    Some "rag" = Some (Server.meta_tool_type meta) /\
    Some "retrieve_docs" = Server.meta_tool_name meta /\
    (forall i c,
       last_where isinstance_AIMessage messages i (AIMessage c) ->
       "answer" = c) /\
    (none_where isinstance_AIMessage messages -> "answer" = "I don't know.").
Proof.
  exact (@chat_answers_last_AIMessage answering_graph "uuid"
           example_chat_request
           {| Server.answer := "answer";
              Server.thread_id := "uuid";
              Server.tool_type := Some "rag";
              Server.tool_name := Some "retrieve_docs" |}
           eq_refl).
Defined.

(** X5: [/chat] calls [graph.invoke] once and makes no call after it.  It
    raises the exception [graph.invoke] raises; and it raises
    [AttributeError] when [graph.invoke] returns messages whose last
    [ToolMessage] has no name, whether or not they hold an [AIMessage]. *)
Theorem chat_failures (graph : Graph) (uuid4 : string)
    (request : Server.ChatRequest) :
  let tid := request_thread_id (Server.req_thread_id request) uuid4 in
  let input := [InputMessage (HumanMessage (Server.req_query request))] in
  snd (run (Server.chat graph uuid4 request)) =
  (uuid4_calls (Server.req_thread_id request)
   ++ [CallInvoke input (Config tid)])%list /\
  (forall e,
     invoke graph input (Config tid) = Raise e ->
     fst (run (Server.chat graph uuid4 request)) = Raise e) /\
  (forall messages i c,
     invoke graph input (Config tid) = Ok messages ->
     last_where isinstance_ToolMessage messages i (ToolMessage None c) ->
     fst (run (Server.chat graph uuid4 request)) = Raise AttributeError).
Proof.
  intros tid input. rewrite chat_eq. cbv zeta. fold tid input. cbn [fst snd].
  split; [reflexivity|]. split.
  - now intros e ->.
  - intros messages i c -> Hlast.
    now rewrite (extract_tool_metadata_nameless Hlast).
Qed.

Lemma chat_failures_witness :
  fst (run (Server.chat nameless_tool_graph "uuid" example_chat_request)) =
  Raise AttributeError.
Proof.
  apply (proj2 (proj2 (chat_failures nameless_tool_graph "uuid"
                         example_chat_request))
           [HumanMessage "q"; ToolMessage None "doc"] 1 "doc" eq_refl).
  split; [reflexivity|]. split; [reflexivity|].
  intros [|[|[|j]]] y Hj Hy; try lia; discriminate.
Defined.

Lemma chat_stream_eq (graph : Graph) (uuid4 : string)
    (request : Server.ChatRequest) :
  let tid := request_thread_id (Server.req_thread_id request) uuid4 in
  run (Server.chat_stream graph uuid4 request) =
  (Ok {| Server.content :=
           Server.event_stream graph request tid (Config tid);
         Server.media_type := "text/event-stream" |},
   uuid4_calls (Server.req_thread_id request)).
Proof.
  intros tid. unfold run, Server.chat_stream. unfold bind at 1.
  now rewrite server_or_else_uuid4.
Qed.

(** X6: [/chat/stream] uses one thread id, the supplied one when it is a
    non-empty string and otherwise the one [uuid.uuid4()] it draws: the
    thread event that opens the stream carries it, and [graph.stream] is
    called with it, once, after the thread event was yielded. *)
Theorem chat_stream_thread_id (graph : Graph) (uuid4 : string)
    (request : Server.ChatRequest) :
  let tid := request_thread_id (Server.req_thread_id request) uuid4 in
  let input := [InputMessage (HumanMessage (Server.req_query request))] in
  exists resp r rest,
    run (Server.chat_stream graph uuid4 request) =
    (Ok resp, uuid4_calls (Server.req_thread_id request)) /\
    Server.media_type resp = "text/event-stream" /\
    run (Server.content resp) =
    (r, Yield (fst (thread_event tid)) :: Yield (snd (thread_event tid))
        :: CallStream input (Config tid) :: rest) /\
    (forall input' cfg', ~ In (CallStream input' cfg') rest).
Proof.
  intros tid input.
  exists {| Server.content :=
              Server.event_stream graph request tid (Config tid);
            Server.media_type := "text/event-stream" |}.
  rewrite chat_stream_eq. fold tid. cbn [Server.content Server.media_type].
  unfold run. rewrite event_stream_eq. cbv zeta. fold input. cbn [app].
  do 2 eexists. split; [reflexivity|]. split; [reflexivity|].
  split; [reflexivity|].
  intros input' cfg' Hin. apply in_app_or in Hin as [Hin|Hin].
  - apply in_map_iff in Hin as (item & Hitem & _). discriminate.
  - destruct (raised (stream graph input (Config tid)));
      simpl in Hin; intuition discriminate.
Qed.

(** X7: an empty string given as thread id counts as none: [/chat],
    [/query], [/query/stream] and [/chat/stream] then draw one
    [uuid.uuid4()] and use its string, never the empty string, as the thread
    id of the graph call. *)
Theorem empty_thread_id_is_replaced (graph : Graph) (uuid4 : string)
    (json_dumps : json -> string) :
  (forall request,
     Server.req_thread_id request = Some EmptyString ->
     snd (run (Server.chat graph uuid4 request)) =
     [CallUuid4;
      CallInvoke [InputMessage (HumanMessage (Server.req_query request))]
        (Config uuid4)]) /\
  (forall req,
     Main.req_thread_id req = Some EmptyString ->
     snd (run (Main.query graph uuid4 req)) =
     [CallUuid4;
      CallStream [RoleContent "user" (Main.req_query req)] (Config uuid4)]) /\
  (forall req,
     Main.req_thread_id req = Some EmptyString ->
     exists resp,
       run (Main.query_stream graph uuid4 json_dumps req) =
       (Ok resp, [CallUuid4]) /\
       Main.content resp =
       Main.sse_graph_stream graph json_dumps (Main.req_query req) uuid4) /\
  (forall request,
     Server.req_thread_id request = Some EmptyString ->
     exists resp,
       run (Server.chat_stream graph uuid4 request) =
       (Ok resp, [CallUuid4]) /\
       Server.content resp =
       Server.event_stream graph request uuid4 (Config uuid4)).
Proof.
  split; [|split; [|split]].
  - intros request H. rewrite chat_eq. cbv zeta. now rewrite H.
  - intros req H. rewrite query_eq. cbv zeta. now rewrite H.
  - intros req H. eexists. rewrite query_stream_eq, H.
    split; reflexivity.
  - intros request H. eexists. rewrite chat_stream_eq. cbv zeta. rewrite H.
    split; reflexivity.
Qed.

Lemma empty_thread_id_is_replaced_witness :
  snd (run (Server.chat answering_graph "uuid"
              {| Server.req_query := "q";
                 Server.req_thread_id := Some EmptyString |})) =
  [CallUuid4; CallInvoke [InputMessage (HumanMessage "q")] (Config "uuid")].
Proof.
  exact (proj1 (empty_thread_id_is_replaced answering_graph "uuid"
                  example_dumps)
           {| Server.req_query := "q";
              Server.req_thread_id := Some EmptyString |} eq_refl).
Defined.

(** ** The events of [event_stream] *)

Section EventStreamEvents.

Variable graph : Graph.

(** The events of the stream in closed form. *)
Lemma event_stream_events (request : Server.ChatRequest) (thread_id : string)
    (cfg : config) :
  let s := stream graph
             [InputMessage (HumanMessage (Server.req_query request))] cfg in
  sse_events
    (yields (snd (run (Server.event_stream graph request thread_id cfg)))) =
  (thread_event thread_id
   :: sse_events (flat_map node_lines (concat (yielded s)))
   ++ match raised s with None => [chat_done_event] | Some _ => [] end)%list.
Proof.
  intros s. unfold run. rewrite event_stream_eq. cbv zeta. fold s. cbn [snd].
  rewrite !yields_app, yields_map_Yield.
  cbn [yields flat_map app thread_event fst snd sse_events].
  rewrite sse_events_node_lines. destruct (raised s); reflexivity.
Qed.

Lemma event_stream_yields (request : Server.ChatRequest) (thread_id : string)
    (cfg : config) :
  let s := stream graph
             [InputMessage (HumanMessage (Server.req_query request))] cfg in
  yields (snd (run (Server.event_stream graph request thread_id cfg))) =
  (fst (thread_event thread_id) :: snd (thread_event thread_id)
   :: flat_map node_lines (concat (yielded s))
   ++ match raised s with
      | None => [fst chat_done_event; snd chat_done_event]
      | Some _ => []
      end)%list.
Proof.
  intros s. unfold run. rewrite event_stream_eq. cbv zeta. fold s. cbn [snd].
  rewrite !yields_app, yields_map_Yield.
  cbn [yields flat_map app]. destruct (raised s); reflexivity.
Qed.

End EventStreamEvents.

Lemma ai_contents_app (xs ys : list message) :
  ai_contents (xs ++ ys) = (ai_contents xs ++ ai_contents ys)%list.
Proof. apply flat_map_app. Qed.

Lemma tool_names_app (xs ys : list message) :
  tool_names (xs ++ ys) = (tool_names xs ++ tool_names ys)%list.
Proof. apply flat_map_app. Qed.

Lemma message_lines_paired (msgs : list message) :
  length (flat_map message_lines msgs) =
  2 * length (sse_events (flat_map message_lines msgs)).
Proof.
  induction msgs as [|msg msgs IH]; [reflexivity|].
  destruct msg; cbn [flat_map message_lines app sse_events length];
    rewrite ?IH; lia.
Qed.

Lemma node_lines_paired (items : list (string * update)) :
  length (flat_map node_lines items) =
  2 * length (sse_events (flat_map node_lines items)).
Proof.
  induction items as [|[node upd] items IH]; [reflexivity|].
  cbn [flat_map node_lines app sse_events length].
  rewrite sse_events_message_lines, !length_app, IH, message_lines_paired.
  lia.
Qed.

Lemma str_in_char_append (c : ascii) (a b : string) :
  str_in (String c EmptyString) (a ++ b) =
  str_in (String c EmptyString) a || str_in (String c EmptyString) b.
Proof.
  induction a as [|x a IH].
  - destruct b; reflexivity.
  - cbn [append str_in startswith]. rewrite IH.
    destruct a; cbn [append startswith]; now rewrite orb_assoc.
Qed.

Lemma single_line_append (a b : string) :
  single_line a -> single_line b -> single_line (a ++ b).
Proof.
  unfold single_line, nl. intros [Ha Ha'] [Hb Hb'].
  now rewrite !str_in_char_append, Ha, Ha', Hb, Hb'.
Qed.

Lemma message_lines_well_framed (msgs : list message) :
  (forall c, In c (ai_contents msgs) -> single_line c) ->
  (forall n, In n (tool_names msgs) -> single_line n) ->
  Forall well_framed (sse_events (flat_map message_lines msgs)).
Proof.
  induction msgs as [|msg msgs IH]; intros Hai Htool; [constructor|].
  assert (IH' : Forall well_framed (sse_events (flat_map message_lines msgs))).
  { apply IH.
    - intros c Hc. apply Hai. unfold ai_contents in *. cbn [flat_map].
      apply in_or_app. now right.
    - intros n Hn. apply Htool. unfold tool_names in *. cbn [flat_map].
      apply in_or_app. now right. }
  destruct msg as [c|c|name c|o];
    cbn [flat_map message_lines app sse_events]; try exact IH'.
  - constructor; [|exact IH']. split; [simpl; tauto|].
    exists c. split; [reflexivity|]. apply Hai. now left.
  - constructor; [|exact IH']. split; [simpl; tauto|].
    exists ("Tool=" ++ str_optional name). split; [reflexivity|].
    apply single_line_append; [now split|]. apply Htool. now left.
Qed.

Lemma node_lines_well_framed (items : list (string * update)) :
  (forall node upd, In (node, upd) items -> single_line node) ->
  (forall c,
     In c (ai_contents (flat_map (fun item => messages (snd item)) items)) ->
     single_line c) ->
  (forall n,
     In n (tool_names (flat_map (fun item => messages (snd item)) items)) ->
     single_line n) ->
  Forall well_framed (sse_events (flat_map node_lines items)).
Proof.
  induction items as [|[node upd] items IH]; intros Hnode Hai Htool;
    [constructor|].
  cbn [flat_map node_lines app sse_events snd] in *.
  rewrite ai_contents_app in Hai. rewrite tool_names_app in Htool.
  rewrite sse_events_message_lines. constructor.
  - split; [simpl; tauto|]. exists ("🔹 Node: " ++ node).
    split; [reflexivity|].
    apply single_line_append; [now split|]. apply (Hnode node upd).
    now left.
  - apply Forall_app. split.
    + apply message_lines_well_framed.
      * intros c Hc. apply Hai, in_or_app. now left.
      * intros n Hn. apply Htool, in_or_app. now left.
    + apply IH.
      * intros node' upd' Hin. apply (Hnode node' upd'). now right.
      * intros c Hc. apply Hai, in_or_app. now right.
      * intros n Hn. apply Htool, in_or_app. now right.
Qed.

(** X8: whatever the graph streams, [event_stream] yields its items in
    pairs, the first of each pair being an event line out of [thread],
    [node], [message], [tool] and [done].  The second is inserted without
    escaping: it is one [data:] line followed by a blank line, as a client
    reads events, provided the thread id, the node names, the contents of
    the [AIMessage]s and the names of the [ToolMessage]s hold no line
    break (neither a line feed nor a carriage return). *)
Theorem event_stream_well_framed (graph : Graph)
    (request : Server.ChatRequest) (thread_id : string) (cfg : config) :
  let s := stream graph
             [InputMessage (HumanMessage (Server.req_query request))] cfg in
  let items :=
    yields (snd (run (Server.event_stream graph request thread_id cfg))) in
  length items = 2 * length (sse_events items) /\
  Forall (fun ev =>
            In (fst ev)
               ["event: thread" ++ nl; "event: node" ++ nl;
                "event: message" ++ nl; "event: tool" ++ nl;
                "event: done" ++ nl])
         (sse_events items) /\
  (single_line thread_id ->
   (forall node upd, In (node, upd) (concat (yielded s)) -> single_line node) ->
   (forall c, In c (ai_contents (all_messages (yielded s))) -> single_line c) ->
   (forall n, In n (tool_names (all_messages (yielded s))) -> single_line n) ->
   Forall well_framed (sse_events items)).
Proof.
  cbv zeta. split; [|split].
  - rewrite event_stream_events, event_stream_yields. cbv zeta.
    cbn [length]. rewrite !length_app, node_lines_paired.
    destruct (raised _); cbn [length]; lia.
  - rewrite event_stream_events. cbv zeta. constructor; [simpl; tauto|].
    apply Forall_app. split.
    + induction (concat (yielded _)) as [|[node upd] items IH];
        [constructor|].
      cbn [flat_map node_lines app sse_events].
      rewrite sse_events_message_lines. constructor; [simpl; tauto|].
      apply Forall_app. split; [|exact IH].
      induction (messages upd) as [|msg msgs IHm]; [constructor|].
      destruct msg; cbn [flat_map message_lines app sse_events];
        try exact IHm; (constructor; [simpl; tauto | exact IHm]).
    + destruct (raised _); constructor; [simpl; tauto | constructor].
  - intros Htid Hnode Hai Htool.
    rewrite event_stream_events. cbv zeta. constructor.
    + split; [simpl; tauto|]. now exists thread_id.
    + apply Forall_app. split; [now apply node_lines_well_framed|].
      destruct (raised _); constructor; [|constructor].
      split; [simpl; tauto|]. exists "end". now split.
Qed.

Lemma event_stream_well_framed_witness :
  Forall well_framed
    (sse_events
       (yields (snd (run (Server.event_stream (example_graph example_stream)
                            example_chat_request "t" (Config "t")))))).
Proof.
  apply (proj2 (proj2 (@event_stream_well_framed
                         (example_graph example_stream)
                         example_chat_request "t" (Config "t")))).
  - split; reflexivity.
  - intros node upd Hin. simpl in Hin.
    destruct Hin as [[= <- <-]|[[= <- <-]|[[= <- <-]|[]]]]; split; reflexivity.
  - intros c Hin. simpl in Hin.
    destruct Hin as [<-|[<-|[]]]; split; reflexivity.
  - intros n Hin. simpl in Hin. destruct Hin as [<-|[]]; split; reflexivity.
Defined.

Lemma message_line_is_message (data : string) :
  is_message_event ("event: message" ++ nl, data) = true.
Proof. reflexivity. Qed.

Lemma message_line_is_not_tool (data : string) :
  is_tool_event ("event: message" ++ nl, data) = false.
Proof. reflexivity. Qed.

Lemma tool_line_is_tool (data : string) :
  is_tool_event ("event: tool" ++ nl, data) = true.
Proof. reflexivity. Qed.

Lemma tool_line_is_not_message (data : string) :
  is_message_event ("event: tool" ++ nl, data) = false.
Proof. reflexivity. Qed.

Lemma node_line_is_not_message (data : string) :
  is_message_event ("event: node" ++ nl, data) = false /\
  is_tool_event ("event: node" ++ nl, data) = false.
Proof. split; reflexivity. Qed.

Lemma message_events_of_messages (msgs : list message) :
  map snd (filter is_message_event
             (sse_events (flat_map message_lines msgs))) =
  map (fun c => "data: " ++ c ++ nl ++ nl) (ai_contents msgs) /\
  map snd (filter is_tool_event (sse_events (flat_map message_lines msgs))) =
  map (fun n => "data: Tool=" ++ n ++ nl ++ nl) (tool_names msgs).
Proof.
  unfold ai_contents, tool_names.
  induction msgs as [|msg msgs [IHm IHt]]; [now split|].
  destruct msg; cbn [flat_map message_lines app sse_events];
    try (split; [exact IHm | exact IHt]).
  - cbn [filter]. rewrite message_line_is_message, message_line_is_not_tool.
    cbn [map snd app]. now rewrite IHm, IHt.
  - cbn [filter]. rewrite tool_line_is_tool, tool_line_is_not_message.
    cbn [map snd app]. now rewrite IHm, IHt.
Qed.

Lemma message_events_of_node_lines (items : list (string * update)) :
  map snd (filter is_message_event (sse_events (flat_map node_lines items))) =
  map (fun c => "data: " ++ c ++ nl ++ nl)
      (ai_contents
         (flat_map (fun item : string * update => messages (snd item)) items))
  /\
  map snd (filter is_tool_event (sse_events (flat_map node_lines items))) =
  map (fun n => "data: Tool=" ++ n ++ nl ++ nl)
      (tool_names
         (flat_map (fun item : string * update => messages (snd item)) items)).
Proof.
  induction items as [|[node upd] items [IHm IHt]]; [now split|].
  cbn [flat_map node_lines app sse_events snd filter].
  destruct (node_line_is_not_message
              ("data: 🔹 Node: " ++ node ++ nl ++ nl)) as [-> ->].
  rewrite sse_events_message_lines, ai_contents_app, tool_names_app, !map_app.
  destruct (message_events_of_messages (messages upd)) as [Hm Ht].
  rewrite <- Hm, <- Ht, <- IHm, <- IHt, <- !map_app, <- !filter_app.
  split; reflexivity.
Qed.

(** X9: the [message] events of [/chat/stream] carry the contents of the
    [AIMessage]s of the node updates, one event each, in the order the graph
    produced them, and the [tool] events the names of the [ToolMessage]s;
    human messages and other objects give no event. *)
Theorem event_stream_message_and_tool_events (graph : Graph)
    (request : Server.ChatRequest) (thread_id : string) (cfg : config) :
  let s := stream graph
             [InputMessage (HumanMessage (Server.req_query request))] cfg in
  let events :=
    sse_events
      (yields (snd (run (Server.event_stream graph request thread_id cfg)))) in
  map snd (filter is_message_event events) =
  map (fun c => "data: " ++ c ++ nl ++ nl)
      (ai_contents (all_messages (yielded s))) /\
  map snd (filter is_tool_event events) =
  map (fun n => "data: Tool=" ++ n ++ nl ++ nl)
      (tool_names (all_messages (yielded s))).
Proof.
  cbv zeta. rewrite event_stream_events. cbv zeta.
  destruct (message_events_of_node_lines
              (concat (yielded
                 (stream graph
                    [InputMessage (HumanMessage (Server.req_query request))]
                    cfg)))) as [Hm Ht].
  unfold all_messages. rewrite <- Hm, <- Ht.
  cbn [filter]. rewrite !filter_app.
  split; destruct (raised _); cbn; now rewrite app_nil_r.
Qed.

(** ** The outcomes of [run_graph] *)

Lemma rendered_prefix_short {X E : Type} (render : X -> option E)
    (items : list X) :
  (exists x, In x items /\ render x = None) ->
  length (rendered_prefix render items) < length items.
Proof.
  induction items as [|y items IH]; intros (x & Hin & Hx); [destruct Hin|].
  cbn [rendered_prefix length]. destruct (render y) as [e|] eqn:Hy.
  - cbn [length]. apply -> Nat.succ_lt_mono. apply IH.
    destruct Hin as [<-|Hin]; [congruence | now exists x].
  - cbn [length]. lia.
Qed.

Lemma some_update_is_empty_not_rendered {E : Type}
    (entry : nat -> string -> string -> E) (chunks : list chunk) :
  some_update_is_empty chunks ->
  exists x,
    In x (node_updates_from 1 chunks) /\
    (let '(step, node, upd) := x in last_message_entry entry step node upd)
    = None.
Proof.
  intros (node & upd & Hin & Hempty).
  rewrite <- (node_updates_from_forget chunks 1) in Hin.
  apply in_map_iff in Hin as ([[step node'] upd'] & [= -> ->] & Hin).
  exists (step, node, upd). split; [assumption|].
  unfold last_message_entry. now rewrite Hempty.
Qed.

Lemma rendered_prefix_app_full {X E : Type} (render : X -> option E)
    (xs ys : list X) :
  length (rendered_prefix render (xs ++ ys)) = length (xs ++ ys) ->
  rendered_prefix render (xs ++ ys) =
  (rendered_prefix render xs ++ rendered_prefix render ys)%list /\
  length (rendered_prefix render ys) = length ys.
Proof.
  induction xs as [|x xs IH]; intros H; [now split|].
  cbn [app rendered_prefix length] in *.
  destruct (render x) as [e|]; [|discriminate].
  cbn [length] in H. injection H as H. destruct (IH H) as [-> Hys].
  now split.
Qed.

(** X10: [run_graph] calls [graph.stream] once and has three outcomes: it
    raises [IndexError] when some node update holds no message, even if the
    stream would raise later; otherwise it raises the exception of the graph
    stream when the stream raises; otherwise it returns. *)
Theorem run_graph_outcomes (graph : Graph) (query thread_id : string) :
  let input := [RoleContent "user" query] in
  let s := stream graph input (Config thread_id) in
  snd (run (Main.run_graph graph query thread_id)) =
  [CallStream input (Config thread_id)] /\
  (some_update_is_empty (yielded s) ->
   fst (run (Main.run_graph graph query thread_id)) = Raise IndexError) /\
  (all_have_messages (yielded s) ->
   forall e, raised s = Some e ->
     fst (run (Main.run_graph graph query thread_id)) = Raise e) /\
  (all_have_messages (yielded s) -> raised s = None ->
   exists answer steps,
     fst (run (Main.run_graph graph query thread_id)) = Ok (answer, steps)).
Proof.
  intros input s. unfold run. rewrite run_graph_eq. cbv zeta. fold input s.
  cbn [fst snd app]. split; [reflexivity|].
  set (items := node_updates_from 1 (yielded s)).
  assert (Hfull : all_have_messages (yielded s) ->
                  (length (rendered_prefix log_entry_of items)
                   =? length items)%nat = true).
  { intros Hall. apply Nat.eqb_eq. apply rendered_prefix_all.
    apply (all_have_messages_rendered Main.step_entry Hall). }
  split; [|split].
  - intros Hempty.
    pose proof (rendered_prefix_short log_entry_of items
                  (some_update_is_empty_not_rendered Main.step_entry Hempty))
      as Hlt.
    apply Nat.lt_neq, Nat.eqb_neq in Hlt. now rewrite Hlt.
  - intros Hall e He. now rewrite (Hfull Hall), He.
  - intros Hall Hnone. rewrite (Hfull Hall), Hnone. eauto.
Qed.

Lemma run_graph_outcomes_witness :
  fst (run (Main.run_graph (example_graph interrupted_stream) "q" "t")) =
  Raise RuntimeError /\
  fst (run (Main.run_graph (example_graph empty_update_stream) "q" "t")) =
  Raise IndexError.
Proof.
  split.
  - apply (proj1 (proj2 (proj2 (run_graph_outcomes
                                  (example_graph interrupted_stream)
                                  "q" "t")))); [|reflexivity].
    intros node upd Hin. simpl in Hin.
    destruct Hin as [[= <- <-]|[[= <- <-]|[[= <- <-]|[]]]]; discriminate.
  - apply (proj1 (proj2 (run_graph_outcomes
                           (example_graph empty_update_stream) "q" "t"))).
    exists "agent", (Update []). split; [now left | reflexivity].
Defined.

(** X11: when the graph yields no node update at all (no chunk, or empty
    chunks only) and does not raise, [run_graph] returns the empty string as
    answer and no step, and [/query] answers with them. *)
Theorem run_graph_without_updates (graph : Graph)
    (uuid4 : string) (req : Main.QueryRequest) :
  let tid := request_thread_id (Main.req_thread_id req) uuid4 in
  let s := stream graph [RoleContent "user" (Main.req_query req)]
             (Config tid) in
  concat (yielded s) = [] -> raised s = None ->
  fst (run (Main.run_graph graph (Main.req_query req) tid)) =
  Ok (EmptyString, []) /\
  fst (run (Main.query graph uuid4 req)) =
  Ok {| Main.answer := EmptyString; Main.steps := [];
        Main.thread_id := tid |}.
Proof.
  intros tid s Hempty Hraised.
  assert (Hrun : fst (run (Main.run_graph graph (Main.req_query req) tid)) =
                 Ok (EmptyString, [])).
  { unfold run. rewrite run_graph_eq. cbv zeta. fold s.
    assert (Hitems : node_updates_from 1 (yielded s) = []).
    { apply length_zero_iff_nil.
      now rewrite node_updates_from_length, Hempty. }
    now rewrite Hitems, Hraised. }
  split; [exact Hrun|].
  rewrite query_eq. cbv zeta. fold tid. cbn [fst]. now rewrite Hrun.
Qed.

Lemma run_graph_without_updates_witness :
  fst (run (Main.query (example_graph (GraphStream [[]; []] None)) "uuid"
             example_query_request)) =
  Ok {| Main.answer := EmptyString; Main.steps := []; Main.thread_id := "t" |}.
Proof.
  exact (proj2 (@run_graph_without_updates
                  (example_graph (GraphStream [[]; []] None)) "uuid"
                  example_query_request eq_refl eq_refl)).
Defined.

(** X12: the answer [run_graph] returns is the response of its last step:
    the last entry of the steps is the entry of some step and node with the
    answer as its response; when there is no step, the answer is the empty
    string. *)
Theorem run_graph_answer_is_last_step (graph : Graph)
    (query thread_id answer : string) (steps : list string)
    (log : list event) :
  run (Main.run_graph graph query thread_id) = (Ok (answer, steps), log) ->
  (steps = [] /\ answer = EmptyString) \/
  exists step node,
    last steps EmptyString = Main.step_entry step node answer.
Proof.
  unfold run. rewrite run_graph_eq. cbv zeta.
  set (items := node_updates_from 1 _).
  destruct (_ =? _)%nat eqn:Hlen; [|discriminate].
  destruct (raised _); [discriminate|]. intros [= <- <- _].
  apply Nat.eqb_eq in Hlen.
  destruct items as [|x items'] using rev_ind; [now left|]. clear IHitems'.
  right. destruct (rendered_prefix_app_full log_entry_of items' [x] Hlen)
    as [-> Hx].
  destruct x as [[step node] upd].
  cbn [rendered_prefix log_entry_of length] in Hx |- *.
  unfold last_message_entry in Hx |- *.
  rewrite map_app. cbn [map content_of].
  destruct (getitem_last (messages upd)) as [msg|e]; [|discriminate].
  exists step, node. now rewrite !last_last.
Qed.

Lemma run_graph_answer_is_last_step_witness :
  exists step node,
    last [Main.step_entry 1 "agent" "a1"; Main.step_entry 1 "tools" "doc";
          Main.step_entry 3 "generate" "final"] EmptyString =
    Main.step_entry step node "final".
Proof.
  destruct (@run_graph_answer_is_last_step (example_graph example_stream)
              "q" "t" "final" _ _ eq_refl) as [[H _]|H].
  - discriminate.
  - exact H.
Defined.

(** ** What a failing graph stream leaves behind *)

Lemma node_lines_event_names (items : list (string * update)) :
  Forall (fun ev : string * string =>
            In (fst ev)
               ["event: node" ++ nl; "event: message" ++ nl;
                "event: tool" ++ nl])
         (sse_events (flat_map node_lines items)).
Proof.
  induction items as [|[node upd] items IH]; [constructor|].
  cbn [flat_map node_lines app sse_events].
  rewrite sse_events_message_lines. constructor; [simpl; tauto|].
  apply Forall_app. split; [|exact IH].
  induction (messages upd) as [|msg msgs IHm]; [constructor|].
  destruct msg; cbn [flat_map message_lines app sse_events];
    try exact IHm; (constructor; [simpl; tauto | exact IHm]).
Qed.

(** X13: when the graph stream raises after it yielded chunks whose node
    updates all hold a message, [run_graph] raises and returns none of the
    steps it went through, whereas the two SSE generators have by then
    yielded the events of every node update the graph produced, and end
    without a done event: [sse_graph_stream] has yielded the init event and
    the step events only, and none of the events of [event_stream] is a
    done event. *)
Theorem streams_relay_before_failure (graph : Graph)
    (json_dumps : json -> string) (e : exn) :
  (forall query thread_id,
     let s := stream graph [RoleContent "user" query] (Config thread_id) in
     raised s = Some e -> all_have_messages (yielded s) ->
     fst (run (Main.run_graph graph query thread_id)) = Raise e /\
     exists steps,
       yields (snd (run (Main.sse_graph_stream graph json_dumps query
                           thread_id))) =
       Main.sse_data json_dumps (Main.init_event thread_id) :: steps /\
       length steps = length (concat (yielded s)) /\
       in_graph_order
         (last_message_entry
            (fun step node content =>
               Main.sse_data json_dumps (Main.step_event step node content)))
         (yielded s) steps /\
       fst (run (Main.sse_graph_stream graph json_dumps query thread_id)) =
       if isinstance_GeneratorExit e then Ok tt else Raise e) /\
  (forall request thread_id cfg,
     let s := stream graph
                [InputMessage (HumanMessage (Server.req_query request))]
                cfg in
     raised s = Some e ->
     fst (run (Server.event_stream graph request thread_id cfg)) = Raise e /\
     exists middle,
       sse_events
         (yields (snd (run (Server.event_stream graph request thread_id
                             cfg)))) =
       thread_event thread_id :: middle /\
       filter is_node_event middle =
       map (fun item : string * update => node_event (fst item))
           (concat (yielded s)) /\
       Forall (fun ev : string * string => fst ev <> "event: done" ++ nl)
              (thread_event thread_id :: middle)).
Proof.
  split.
  - intros query thread_id s Hraised Hmsgs. split.
    + unfold run. rewrite run_graph_eq. cbv zeta. fold s. cbn [fst].
      assert (Hfull : length (rendered_prefix log_entry_of
                                (node_updates_from 1 (yielded s))) =
                      length (node_updates_from 1 (yielded s))).
      { apply rendered_prefix_all.
        apply (all_have_messages_rendered Main.step_entry Hmsgs). }
      apply Nat.eqb_eq in Hfull. now rewrite Hfull, Hraised.
    + unfold run. rewrite sse_graph_stream_eq. cbv zeta. fold s.
      set (items := node_updates_from 1 (yielded s)).
      set (steps := rendered_prefix (sse_step_of json_dumps) items).
      assert (Hlen : length steps = length items).
      { apply rendered_prefix_all.
        apply (all_have_messages_rendered
                 (fun step node content =>
                    Main.sse_data json_dumps
                      (Main.step_event step node content)) Hmsgs). }
      apply Nat.eqb_eq in Hlen as Hlenb. rewrite Hlenb, Hraised.
      cbn [fst snd]. exists steps.
      rewrite !yields_app, yields_map_Yield. cbn [yields flat_map app].
      split; [reflexivity|]. split; [|split].
      * unfold items in Hlen. now rewrite Hlen, node_updates_from_length.
      * apply in_graph_order_of_relays.
        apply (relays_rendered_prefix (sse_step_of json_dumps)).
      * reflexivity.
  - intros request thread_id cfg s Hraised. split.
    + unfold run. rewrite event_stream_eq. cbv zeta. fold s.
      now rewrite Hraised.
    + rewrite event_stream_events. cbv zeta. fold s. rewrite Hraised.
      rewrite app_nil_r. eexists. split; [reflexivity|]. split.
      * induction (concat (yielded s)) as [|[node upd] items IH];
          [reflexivity|].
        cbn [flat_map node_lines app sse_events filter map fst].
        rewrite node_line_is_node, sse_events_message_lines, filter_app,
          no_node_event_in_messages.
        cbn [app]. now rewrite IH.
      * constructor; [discriminate|].
        eapply Forall_impl; [|apply node_lines_event_names].
        intros ev Hin Hdone. simpl in Hin.
        destruct Hin as [H|[H|[H|[]]]]; rewrite Hdone in H; discriminate.
Qed.

Lemma streams_relay_before_failure_witness :
  (fst (run (Main.run_graph (example_graph interrupted_stream) "q" "t")) =
   Raise RuntimeError /\
   exists steps,
     yields (snd (run (Main.sse_graph_stream
                         (example_graph interrupted_stream)
                         example_dumps "q" "t"))) =
     Main.sse_data example_dumps (Main.init_event "t") :: steps /\
     length steps = 3) /\
  Forall (fun ev : string * string => fst ev <> "event: done" ++ nl)
         (sse_events
            (yields (snd (run (Server.event_stream
                                 (example_graph interrupted_stream)
                                 example_chat_request "t" (Config "t")))))).
Proof.
  split.
  - destruct (proj1 (streams_relay_before_failure
                       (example_graph interrupted_stream) example_dumps
                       RuntimeError) "q" "t" eq_refl)
      as (Hrun & steps & Hyields & Hlen & _).
    + intros node upd Hin. simpl in Hin.
      destruct Hin as [[= <- <-]|[[= <- <-]|[[= <- <-]|[]]]]; discriminate.
    + split; [exact Hrun|]. exists steps. now split.
  - destruct (proj2 (streams_relay_before_failure
                       (example_graph interrupted_stream) example_dumps
                       RuntimeError)
                example_chat_request "t" (Config "t") eq_refl)
      as (_ & middle & -> & _ & Hnone).
    exact Hnone.
Defined.

(** ** More on [query_ws] *)

(** X14: a request that cannot be read, or that has no ["query"] key, is
    dropped without a word: the handler sends no frame, not even an error,
    does not call the graph, closes the connection and returns. *)
Theorem query_ws_drops_unreadable_request (graph : Graph) (uuid4 : string)
    (websocket : WebSocket) :
  accept_raises websocket = None ->
  close_raises websocket = None ->
  (exists e, receive_json_result websocket = Raise e /\
             isinstance_Exception e = true) \/
  (exists data, receive_json_result websocket = Ok data /\
                data_query data = None) ->
  run (Main.query_ws graph uuid4 websocket) =
  (Ok tt, [WsAccept; WsReceiveJson; WsClose]).
Proof.
  intros Haccept Hclose Hrequest. rewrite query_ws_eq, Haccept, Hclose.
  destruct (query_ws_try graph uuid4 websocket [WsAccept]) as [r log] eqn:Htry.
  apply query_ws_try_spec in Htry; [|reflexivity].
  destruct Hrequest as [(e & Hrecv & He)|(data & Hrecv & Hquery)].
  - rewrite Hrecv in Htry. destruct Htry as [-> ->]. now rewrite He.
  - rewrite Hrecv, Hquery in Htry. now destruct Htry as [-> ->].
Qed.

Lemma query_ws_drops_unreadable_request_witness :
  run (Main.query_ws (example_graph example_stream) "uuid"
         queryless_websocket) =
  (Ok tt, [WsAccept; WsReceiveJson; WsClose]).
Proof.
  apply query_ws_drops_unreadable_request; try reflexivity.
  right. exists (WsData None (Some "t")). now split.
Defined.

Lemma send_outcomes_app (l1 l2 : list event) :
  send_outcomes (l1 ++ l2) = (send_outcomes l1 ++ send_outcomes l2)%list.
Proof. apply flat_map_app. Qed.

Lemma send_outcomes_sent (frames : list json) :
  send_outcomes (map sent frames) = repeat true (length frames).
Proof.
  induction frames as [|f frames IH]; [reflexivity|].
  cbn [map length repeat]. rewrite <- IH. reflexivity.
Qed.

Lemma send_outcomes_uuid4_calls (supplied : option string) :
  send_outcomes (uuid4_calls supplied) = [].
Proof. now destruct supplied as [[|c s]|]. Qed.

Lemma repeat_true_snoc (n : nat) :
  (repeat true n ++ [true])%list = repeat true (S n).
Proof.
  induction n as [|n IH]; [reflexivity|].
  cbn [repeat app]. now rewrite IH.
Qed.

(** X15: the handler stops sending at the first send that fails: among the
    sends it attempts, in order, all are delivered but possibly the last
    one, whatever the connection does. *)
Theorem query_ws_stops_at_failed_send (graph : Graph) (uuid4 : string)
    (websocket : WebSocket) :
  exists k,
    send_outcomes (snd (run (Main.query_ws graph uuid4 websocket))) =
    repeat true k \/
    send_outcomes (snd (run (Main.query_ws graph uuid4 websocket))) =
    (repeat true k ++ [false])%list.
Proof.
  rewrite query_ws_eq.
  destruct (accept_raises websocket) as [e|]; [exists 0; now left|].
  destruct (query_ws_try graph uuid4 websocket [WsAccept]) as [r log] eqn:Htry.
  apply query_ws_try_spec in Htry; [|reflexivity]. cbn [snd].
  destruct (receive_json_result websocket) as [data|e].
  2: { destruct Htry as [_ ->]. exists 0. now left. }
  destruct (data_query data) as [query|].
  2: { destruct Htry as [_ ->]. exists 0. now left. }
  cbv zeta in Htry.
  destruct (send_json_raises websocket 0) as [e|].
  { destruct Htry as [_ ->]. exists 0. right.
    rewrite !send_outcomes_app, send_outcomes_uuid4_calls. reflexivity. }
  destruct Htry as (k & tail & -> & Hcases).
  set (frames := firstn k _).
  assert (Hlog : forall tail',
    send_outcomes
      ((([WsAccept] ++ [WsReceiveJson]
         ++ uuid4_calls (data_thread_id data))
        ++ [sent (Main.init_event
                    (request_thread_id (data_thread_id data) uuid4));
            CallStream [RoleContent "user" query]
              (Config (request_thread_id (data_thread_id data) uuid4))]
        ++ map sent frames ++ tail') ++ [WsClose]) =
    (repeat true (S (length frames)) ++ send_outcomes tail')%list).
  { intros tail'.
    rewrite !send_outcomes_app, send_outcomes_uuid4_calls, send_outcomes_sent.
    cbn. now rewrite app_nil_r. }
  rewrite Hlog.
  destruct Hcases
    as [(_ & -> & _)|[(e & _ & -> & _)|(f & e & n & _ & -> & _)]].
  - exists (S (S (length frames))). left.
    change (send_outcomes [sent Main.done_event]) with [true].
    now rewrite repeat_true_snoc.
  - exists (S (length frames)). left. cbn [send_outcomes flat_map].
    now rewrite app_nil_r.
  - exists (S (length frames)). right. reflexivity.
Qed.

(** ** The SSE stream and the WebSocket frames *)

Lemma sent_frames_app (l1 l2 : list event) :
  sent_frames (l1 ++ l2) = (sent_frames l1 ++ sent_frames l2)%list.
Proof. apply flat_map_app. Qed.

Lemma sent_frames_sent (frames : list json) :
  sent_frames (map sent frames) = frames.
Proof.
  induction frames as [|f frames IH]; [reflexivity|].
  cbn [map]. change (sent_frames (sent f :: ?l)) with (f :: sent_frames l).
  now rewrite IH.
Qed.

Lemma sent_frames_uuid4_calls (supplied : option string) :
  sent_frames (uuid4_calls supplied) = [].
Proof. now destruct supplied as [[|c s]|]. Qed.

(** X16: [/query/stream] and [/query/ws] carry the same data.  Take a
    request to each, with the same query and thread id, to which the graph
    streams the same chunks with the same outcome, the connection of the
    WebSocket being one on which [accept] and every send succeed.  Then the
    items the SSE generator yields are the frames sent on the WebSocket, in
    the same order, each one dumped to JSON between [data: ] and a blank
    line: the same init, the same steps and, when there is one, the same
    done. *)
Theorem sse_stream_is_ws_frames (graph_sse graph_ws : Graph) (uuid4 : string)
    (json_dumps : json -> string) (websocket : WebSocket) (data : ws_data)
    (query : string) :
  let tid := request_thread_id (data_thread_id data) uuid4 in
  accept_raises websocket = None ->
  receive_json_result websocket = Ok data ->
  data_query data = Some query ->
  (forall n, send_json_raises websocket n = None) ->
  stream graph_sse [RoleContent "user" query] (Config tid) =
  stream graph_ws [RoleContent "user" query] (Config tid) ->
  yields
    (snd (run (Main.sse_graph_stream graph_sse json_dumps query tid))) =
  map (fun frame => "data: " ++ json_dumps frame ++ nl ++ nl)
      (sent_frames (snd (run (Main.query_ws graph_ws uuid4 websocket)))).
Proof.
  intros tid Haccept Hrecv Hquery Hsend Hstream.
  change (fun frame => "data: " ++ json_dumps frame ++ nl ++ nl)
    with (Main.sse_data json_dumps).
  rewrite query_ws_eq, Haccept,
    (@query_ws_try_delivering graph_ws uuid4 websocket data query [WsAccept]
       Hrecv Hquery Hsend).
  unfold run. rewrite sse_graph_stream_eq. cbv zeta. fold tid.
  rewrite Hstream.
  set (s := stream graph_ws [RoleContent "user" query] (Config tid)).
  set (items := node_updates_from 1 (yielded s)).
  rewrite sse_steps_of_frames, length_map.
  set (frames := rendered_prefix step_frame_of items).
  destruct (length frames =? length items)%nat;
    [destruct (raised s) as [e|]|];
    cbn [snd];
    rewrite !sent_frames_app, sent_frames_uuid4_calls, sent_frames_sent,
      !yields_app, yields_map_Yield;
    cbn [sent_frames yields flat_map app map];
    rewrite ?map_app, ?app_nil_r; reflexivity.
Qed.

Lemma sse_stream_is_ws_frames_witness :
  yields
    (snd (run (Main.sse_graph_stream (example_graph example_stream)
                 example_dumps "q" "uuid"))) =
  map (fun frame => "data: " ++ example_dumps frame ++ nl ++ nl)
      (sent_frames
         (snd (run (Main.query_ws mapping_state_graph "uuid"
                      example_websocket)))).
Proof.
  apply (@sse_stream_is_ws_frames (example_graph example_stream)
           mapping_state_graph "uuid"
           example_dumps example_websocket (WsData (Some "q") None) "q");
    reflexivity.
Defined.

(** ** More on [/suggest] *)

Lemma suggest_from_request (graph : Graph)
    (response_model : list input_message -> pyresult string)
    (request : Server.SuggestRequest) (c : ascii) (s : string) :
  Server.req_final_answer request = Some (String c s) ->
  run (Server.suggest graph response_model request) =
  (match
     response_model
       [RoleContent "user" (Server.SUGGESTION_PROMPT_format (String c s))]
   with
   | Ok response =>
       Ok {| Server.suggestions := Server.suggestion_lines response;
             Server.resp_thread_id := Server.suggest_thread_id request |}
   | Raise e => Raise e
   end,
   [CallModel
      [RoleContent "user" (Server.SUGGESTION_PROMPT_format (String c s))]]).
Proof.
  intros Hfa. unfold run, Server.suggest. rewrite Hfa.
  unfold Server.response_model_invoke, bind, perform, py, ret. cbn [app].
  destruct (response_model _); reflexivity.
Qed.

(** X17: a final answer given in the request takes precedence over the
    thread: the graph is not asked for its state whatever the thread id is,
    the model is invoked once with the template filled with that answer, and
    the response carries the lines of the model's reply and the thread id of
    the request as it came. *)
Theorem suggest_given_final_answer (graph : Graph)
    (response_model : list input_message -> pyresult string)
    (request : Server.SuggestRequest) (final_answer : string) :
  Server.req_final_answer request = Some final_answer ->
  final_answer <> EmptyString ->
  let input :=
    [RoleContent "user" (Server.SUGGESTION_PROMPT_format final_answer)] in
  run (Server.suggest graph response_model request) =
  (match response_model input with
   | Ok response =>
       Ok {| Server.suggestions := Server.suggestion_lines response;
             Server.resp_thread_id := Server.suggest_thread_id request |}
   | Raise e => Raise e
   end,
   [CallModel input]).
Proof.
  intros Hfa Hne. destruct final_answer as [|c s]; [contradiction|].
  exact (suggest_from_request graph response_model request Hfa).
Qed.

Lemma suggest_given_final_answer_witness :
  run (Server.suggest answering_graph example_model
         {| Server.req_final_answer := Some "CCC is a student society.";
            Server.suggest_thread_id := Some "t" |}) =
  (Ok {| Server.suggestions := ["What is CCC"; "How to join"];
         Server.resp_thread_id := Some "t" |},
   [CallModel
      [RoleContent "user"
         (Server.SUGGESTION_PROMPT_format "CCC is a student society.")]]).
Proof.
  apply (@suggest_given_final_answer answering_graph example_model
           {| Server.req_final_answer := Some "CCC is a student society.";
              Server.suggest_thread_id := Some "t" |}
           "CCC is a student society." eq_refl).
  discriminate.
Defined.

(** X18: [/suggest] has no fallback for a failure: when it raises, the
    exception is the one [graph.get_state] raised, or the one the subscript
    [state["messages"]] raised on what [graph.get_state] returned
    ([TypeError] on a [StateSnapshot], [KeyError] on a mapping without the
    key), the model not being invoked in these two cases, or it is the one
    the model raised. *)
Theorem suggest_propagates_exceptions (graph : Graph)
    (response_model : list input_message -> pyresult string)
    (request : Server.SuggestRequest) (e : exn) :
  fst (run (Server.suggest graph response_model request)) = Raise e ->
  (exists tid,
     Server.suggest_thread_id request = Some tid /\
     snd (run (Server.suggest graph response_model request)) =
     [CallGetState (Config tid)] /\
     (get_state graph (Config tid) = Raise e \/
      exists st,
        get_state graph (Config tid) = Ok st /\
        getitem_messages st = Raise e /\
        ((exists values, st = StateSnapshot values /\ e = TypeError) \/
         (st = StateMapping None /\ e = KeyError)))) \/
  (exists input,
     response_model input = Raise e /\
     In (CallModel input)
        (snd (run (Server.suggest graph response_model request)))).
Proof.
  destruct (absent_cases (Server.req_final_answer request))
    as [Hfa|(c & s & Hfa)].
  2: { rewrite (suggest_from_request graph response_model request Hfa).
       cbn [fst snd]. intros H. right. eexists. split; [|now left].
       destruct (response_model _); [discriminate | congruence]. }
  destruct (absent_cases (Server.suggest_thread_id request))
    as [Htid|(c & s & Htid)].
  { unfold run, Server.suggest.
    destruct Hfa as [-> | ->], Htid as [-> | ->]; discriminate. }
  rewrite (suggest_from_state graph response_model request Hfa Htid).
  destruct (get_state graph (Config (String c s))) as [st|e0] eqn:Hstate.
  2: { cbn [fst snd]. intros [= ->]. left. exists (String c s). auto. }
  destruct (getitem_messages st) as [messages|e0] eqn:Hitem.
  2: { cbn [fst snd]. intros [= ->]. left. exists (String c s).
       split; [exact Htid|]. split; [reflexivity|]. right. exists st.
       split; [exact Hstate|]. split; [exact Hitem|].
       destruct st as [values|[msgs|]]; simpl in Hitem;
         [left; exists values | discriminate | right];
         split; congruence. }
  destruct (Server.get_last_ai_answer messages) as [[|c' s']|];
    cbn [fst snd]; try discriminate.
  intros H. right. eexists. split; [|right; now left].
  destruct (response_model _); [discriminate | congruence].
Qed.

Lemma suggest_propagates_exceptions_witness :
  snd (run (Server.suggest (example_graph example_stream) example_model
              example_suggest_request)) =
  [CallGetState (Config "t")].
Proof.
  destruct (@suggest_propagates_exceptions (example_graph example_stream)
              example_model example_suggest_request TypeError eq_refl)
    as [(tid & Htid & Hlog & _)|(input & H & _)].
  - injection Htid as <-. exact Hlog.
  - discriminate.
Defined.

(** X19: a response of [/suggest] carries the thread id of the request as it
    came, with one exception: a request without a final answer whose thread
    id is the empty string gets [None] back, with no suggestion and without
    any call. *)
Theorem suggest_echoes_thread_id (graph : Graph)
    (response_model : list input_message -> pyresult string)
    (request : Server.SuggestRequest) (resp : Server.SuggestResponse) :
  fst (run (Server.suggest graph response_model request)) = Ok resp ->
  Server.resp_thread_id resp = Server.suggest_thread_id request \/
  (absent (Server.req_final_answer request) /\
   Server.suggest_thread_id request = Some EmptyString /\
   resp = {| Server.suggestions := []; Server.resp_thread_id := None |} /\
   snd (run (Server.suggest graph response_model request)) = []).
Proof.
  destruct (absent_cases (Server.req_final_answer request))
    as [Hfa|(c & s & Hfa)].
  2: { rewrite (suggest_from_request graph response_model request Hfa).
       cbn [fst]. destruct (response_model _); [|discriminate].
       intros [= <-]. now left. }
  destruct (absent_cases (Server.suggest_thread_id request))
    as [Htid|(c & s & Htid)].
  { unfold run, Server.suggest.
    destruct Hfa as [Hfa|Hfa], Htid as [Htid|Htid]; rewrite Hfa, Htid;
      cbn; intros [= <-]; cbn; auto;
      right; unfold absent; auto. }
  rewrite (suggest_from_state graph response_model request Hfa Htid).
  rewrite Htid.
  destruct (get_state graph (Config (String c s))) as [st|e0];
    [|discriminate].
  destruct (getitem_messages st) as [messages|e0]; [|discriminate].
  destruct (Server.get_last_ai_answer messages) as [[|c' s']|];
    cbn [fst]; try (intros [= <-]; now left).
  destruct (response_model _); [|discriminate].
  intros [= <-]. now left.
Qed.

Lemma suggest_echoes_thread_id_witness :
  Server.resp_thread_id
    {| Server.suggestions := ["What is CCC"; "How to join"];
       Server.resp_thread_id := Some "t" |} = Some "t" \/
  (absent (Some "CCC is a student society.") /\
   Some "t" = Some EmptyString /\
   {| Server.suggestions := ["What is CCC"; "How to join"];
      Server.resp_thread_id := Some "t" |} =
   {| Server.suggestions := []; Server.resp_thread_id := None |} /\
   snd (run (Server.suggest answering_graph example_model
               {| Server.req_final_answer := Some "CCC is a student society.";
                  Server.suggest_thread_id := Some "t" |})) = []).
Proof.
  exact (@suggest_echoes_thread_id answering_graph example_model
           {| Server.req_final_answer := Some "CCC is a student society.";
              Server.suggest_thread_id := Some "t" |}
           _ eq_refl).
Defined.

(** ** The page of [frontend_streamlit.py] *)

Lemma last_app_default {A : Type} (xs ys : list A) :
  forall d, last (xs ++ ys) d = last ys (last xs d).
Proof.
  induction xs as [|a xs IH]; intros d; [reflexivity|].
  change ((a :: xs) ++ ys)%list with (a :: (xs ++ ys))%list.
  now rewrite !last_cons_default, IH.
Qed.

Lemma on_messages_eq (msgs : list message) :
  forall vars log,
    for_in msgs vars Frontend.on_message log =
    (Ok {| Frontend.final_answer :=
             last (ai_contents msgs) (Frontend.final_answer vars);
           Frontend.debug_logs :=
             Frontend.debug_logs vars ++
             flat_map trace_lines_of_message msgs;
           Frontend.answer_shown :=
             Frontend.answer_shown vars ++ ai_contents msgs;
           Frontend.debug_shown := Frontend.debug_shown vars |}, log).
Proof.
  induction msgs as [|msg msgs IH]; intros vars log.
  - destruct vars. cbn. now rewrite !app_nil_r.
  - cbn [for_in]. unfold bind.
    destruct msg as [c|c|n c|o];
      cbn [Frontend.on_message ret]; rewrite IH;
      cbn [Frontend.final_answer Frontend.debug_logs Frontend.answer_shown
           Frontend.debug_shown ai_contents flat_map trace_lines_of_message];
      rewrite <- ?app_assoc; cbn [app]; rewrite ?last_cons_default;
      reflexivity.
Qed.

Lemma page_updates_eq (items : list (string * update)) :
  forall vars log,
    for_in items vars page_update log =
    (Ok {| Frontend.final_answer :=
             last (ai_contents
                     (flat_map (fun item => messages (snd item)) items))
                  (Frontend.final_answer vars);
           Frontend.debug_logs :=
             Frontend.debug_logs vars ++
             flat_map trace_lines_of_node items;
           Frontend.answer_shown :=
             Frontend.answer_shown vars ++
             ai_contents (flat_map (fun item => messages (snd item)) items);
           Frontend.debug_shown :=
             Frontend.debug_shown vars ++
             trace_renderings (Frontend.debug_logs vars) items |}, log).
Proof.
  induction items as [|[node upd] items IH]; intros vars log.
  - destruct vars. cbn. now rewrite !app_nil_r.
  - cbn [for_in page_update]. unfold bind at 1. unfold bind.
    rewrite on_messages_eq. cbn [ret]. rewrite IH.
    cbn [Frontend.final_answer Frontend.debug_logs Frontend.answer_shown
         Frontend.debug_shown flat_map trace_renderings trace_lines_of_node
         fst snd].
    rewrite ai_contents_app, last_app_default, <- !app_assoc.
    reflexivity.
Qed.

Lemma on_user_input_eq (graph : Graph) (thread_id : string)
    (session : list Frontend.turn) (c : ascii) (s : string) :
  let user_input := String c s in
  let input := [InputMessage (HumanMessage user_input)] in
  let items := concat (yielded (stream graph input (Config thread_id))) in
  Frontend.on_user_input graph thread_id session (Some user_input) =
  match raised (stream graph input (Config thread_id)) with
  | None =>
      (Ok (Some {| Frontend.final_answer :=
                     last (ai_contents
                             (flat_map (fun item => messages (snd item))
                                       items))
                          EmptyString;
                   Frontend.debug_logs := flat_map trace_lines_of_node items;
                   Frontend.answer_shown :=
                     ai_contents
                       (flat_map (fun item => messages (snd item)) items);
                   Frontend.debug_shown := trace_renderings [] items |}),
       (session ++
        [Frontend.Turn "user" user_input;
         Frontend.Turn "assistant"
           (last (ai_contents
                    (flat_map (fun item => messages (snd item)) items))
                 EmptyString)])%list,
       [CallStream input (Config thread_id)])
  | Some e =>
      (Raise e, (session ++ [Frontend.Turn "user" user_input])%list,
       [CallStream input (Config thread_id)])
  end.
Proof.
  cbv zeta. unfold Frontend.on_user_input, run, for_in_stream.
  unfold bind at 1. unfold perform at 1. cbn [app]. unfold bind at 1.
  rewrite (for_in_ext _ (fun chunk vars => for_in chunk vars page_update)).
  2: { intros chunk v l. apply for_in_ext. now intros [node upd] v' l'. }
  rewrite <- (for_in_flat_map (fun chunk : chunk => chunk) page_update).
  rewrite flat_map_concat_map, map_id, page_updates_eq.
  cbn [Frontend.final_answer Frontend.debug_logs Frontend.answer_shown
       Frontend.debug_shown app].
  unfold bind, outcome, raise, ret.
  destruct (raised _); [reflexivity|].
  cbn [Frontend.final_answer]. rewrite <- app_assoc. reflexivity.
Qed.

Lemma trace_renderings_length (items : list (string * update)) :
  forall logs, length (trace_renderings logs items) = length items.
Proof.
  induction items as [|item items IH]; intros logs; [reflexivity|].
  cbn [trace_renderings length]. now rewrite IH.
Qed.

Lemma trace_renderings_last (items : list (string * update)) :
  forall logs d,
    items <> [] ->
    last (trace_renderings logs items) d =
    Frontend.join (nl ++ nl) (logs ++ flat_map trace_lines_of_node items).
Proof.
  induction items as [|item items IH]; intros logs d H; [contradiction|].
  cbn [trace_renderings]. rewrite last_cons_default.
  destruct items as [|item' items].
  - cbn [trace_renderings last flat_map]. now rewrite app_nil_r.
  - rewrite IH by discriminate.
    cbn [flat_map]. now rewrite <- !app_assoc.
Qed.

(** X20: a turn of the page whose graph stream completes appends two entries
    to the session, the question and then the answer. The answer placeholder
    is given the content of every [AIMessage] of the stream, in graph order,
    and the answer saved is the last of them, or the empty string when the
    stream had no [AIMessage]. *)
Theorem page_saves_last_answer (graph : Graph) (thread_id : string)
    (session : list Frontend.turn) (user_input : string) :
  let input := [InputMessage (HumanMessage user_input)] in
  let s := stream graph input (Config thread_id) in
  user_input <> EmptyString ->
  raised s = None ->
  exists vars,
    Frontend.on_user_input graph thread_id session (Some user_input) =
    (Ok (Some vars),
     (session ++ [Frontend.Turn "user" user_input;
                  Frontend.Turn "assistant" (Frontend.final_answer vars)])%list,
     [CallStream input (Config thread_id)]) /\
    Frontend.answer_shown vars = ai_contents (all_messages (yielded s)) /\
    Frontend.final_answer vars =
    last (ai_contents (all_messages (yielded s))) EmptyString.
Proof.
  intros input s Hne Hdone. destruct user_input as [|c u]; [contradiction|].
  rewrite on_user_input_eq. cbv zeta. fold input. fold s. rewrite Hdone.
  eexists (Frontend.Build_loop_vars _ _ _ _).
  split; [reflexivity|]. split; reflexivity.
Qed.

Lemma page_saves_last_answer_witness :
  exists vars,
    Frontend.on_user_input (example_graph example_stream) "t"
      [Frontend.Turn "user" "hello"; Frontend.Turn "assistant" "hi"]
      (Some "What is CCC?") =
    (Ok (Some vars),
     [Frontend.Turn "user" "hello"; Frontend.Turn "assistant" "hi";
      Frontend.Turn "user" "What is CCC?";
      Frontend.Turn "assistant" (Frontend.final_answer vars)],
     [CallStream [InputMessage (HumanMessage "What is CCC?")] (Config "t")]) /\
    Frontend.answer_shown vars =
    ai_contents (all_messages (yielded example_stream)) /\
    Frontend.final_answer vars =
    last (ai_contents (all_messages (yielded example_stream))) EmptyString.
Proof.
  apply (@page_saves_last_answer (example_graph example_stream) "t"
           [Frontend.Turn "user" "hello"; Frontend.Turn "assistant" "hi"]
           "What is CCC?").
  - discriminate.
  - reflexivity.
Defined.

(** X21: when the graph stream raises, the page lets the exception through
    and the session is left with the question as its last entry: what the
    stream yielded before failing is not saved, and no assistant entry is
    appended. *)
Theorem page_failed_turn_keeps_question (graph : Graph) (thread_id : string)
    (session : list Frontend.turn) (user_input : string) (e : exn) :
  let input := [InputMessage (HumanMessage user_input)] in
  user_input <> EmptyString ->
  raised (stream graph input (Config thread_id)) = Some e ->
  Frontend.on_user_input graph thread_id session (Some user_input) =
  (Raise e, (session ++ [Frontend.Turn "user" user_input])%list,
   [CallStream input (Config thread_id)]).
Proof.
  intros input Hne Hraised. destruct user_input as [|c u]; [contradiction|].
  rewrite on_user_input_eq. cbv zeta. fold input. now rewrite Hraised.
Qed.

Lemma page_failed_turn_keeps_question_witness :
  Frontend.on_user_input (example_graph interrupted_stream) "t" []
    (Some "What is CCC?") =
  (Raise RuntimeError, [Frontend.Turn "user" "What is CCC?"],
   [CallStream [InputMessage (HumanMessage "What is CCC?")] (Config "t")]).
Proof.
  apply (@page_failed_turn_keeps_question (example_graph interrupted_stream)
           "t" [] "What is CCC?" RuntimeError).
  - discriminate.
  - reflexivity.
Defined.

(** X22: the execution trace of a completed turn holds, for each node update
    in graph order, the line of the node followed by the lines of its tool
    and human messages, an [AIMessage] adding none. The trace placeholder is
    rendered once per node update, and its last rendering is the whole trace
    joined by blank lines. *)
Theorem page_trace_per_node_update (graph : Graph) (thread_id : string)
    (session : list Frontend.turn) (user_input : string)
    (vars : Frontend.loop_vars) :
  let input := [InputMessage (HumanMessage user_input)] in
  let items := concat (yielded (stream graph input (Config thread_id))) in
  fst (fst (Frontend.on_user_input graph thread_id session (Some user_input)))
  = Ok (Some vars) ->
  Frontend.debug_logs vars = flat_map trace_lines_of_node items /\
  length (Frontend.debug_shown vars) = length items /\
  (items <> [] ->
   last (Frontend.debug_shown vars) EmptyString =
   Frontend.join (nl ++ nl) (Frontend.debug_logs vars)).
Proof.
  intros input items. destruct user_input as [|c u]; [discriminate|].
  rewrite on_user_input_eq. cbv zeta. fold input. fold items.
  destruct (raised _); [discriminate|]. cbn [fst]. intros [= <-].
  cbn [Frontend.debug_logs Frontend.debug_shown].
  split; [reflexivity|]. split; [apply trace_renderings_length|].
  intros H. now rewrite trace_renderings_last.
Qed.

Lemma page_trace_per_node_update_witness :
  let items := concat (yielded example_stream) in
  let vars :=
    {| Frontend.final_answer :=
         last (ai_contents (all_messages (yielded example_stream)))
              EmptyString;
       Frontend.debug_logs := flat_map trace_lines_of_node items;
       Frontend.answer_shown :=
         ai_contents (all_messages (yielded example_stream));
       Frontend.debug_shown := trace_renderings [] items |} in
  Frontend.debug_logs vars = flat_map trace_lines_of_node items /\
  length (Frontend.debug_shown vars) = length items /\
  (items <> [] ->
   last (Frontend.debug_shown vars) EmptyString =
   Frontend.join (nl ++ nl) (Frontend.debug_logs vars)).
Proof.
  intros items vars.
  apply (@page_trace_per_node_update (example_graph example_stream) "t" []
           "What is CCC?" vars).
  vm_compute. reflexivity.
Defined.

(** ** The lines of [/suggest] *)

Lemma length_append (a b : string) :
  String.length (a ++ b) = String.length a + String.length b.
Proof. induction a as [|c a IH]; simpl; congruence. Qed.

Lemma drop_append (p rest : string) :
  drop (String.length p) (p ++ rest) = rest.
Proof. induction p as [|c p IH]; [now destruct rest|exact IH]. Qed.

Lemma append_assoc (a b c : string) : (a ++ b) ++ c = a ++ b ++ c.
Proof. induction a as [|x a IH]; simpl; congruence. Qed.

Lemma append_nil_r (a : string) : a ++ EmptyString = a.
Proof. induction a as [|x a IH]; simpl; congruence. Qed.

Lemma list_ascii_of_string_append (a b : string) :
  list_ascii_of_string (a ++ b) =
  (list_ascii_of_string a ++ list_ascii_of_string b)%list.
Proof. induction a as [|x a IH]; simpl; congruence. Qed.

Lemma string_of_list_ascii_app (xs ys : list ascii) :
  string_of_list_ascii (xs ++ ys) =
  string_of_list_ascii xs ++ string_of_list_ascii ys.
Proof. induction xs as [|x xs IH]; simpl; congruence. Qed.

Lemma reversed_str_append (a b : string) :
  reversed_str (a ++ b) = reversed_str b ++ reversed_str a.
Proof.
  unfold reversed_str.
  now rewrite list_ascii_of_string_append, rev_app_distr,
    string_of_list_ascii_app.
Qed.

Lemma reversed_str_involutive (s : string) :
  reversed_str (reversed_str s) = s.
Proof.
  unfold reversed_str.
  now rewrite list_ascii_of_string_of_list_ascii, rev_involutive,
    string_of_list_ascii_of_string.
Qed.

Lemma reversed_str_nonempty (s : string) :
  nonempty s = true -> nonempty (reversed_str s) = true.
Proof.
  intros H. destruct (reversed_str s) eqn:E; [|reflexivity].
  apply (f_equal reversed_str) in E. rewrite reversed_str_involutive in E.
  now subst s.
Qed.

(** [lstrip] removes a prefix, and none of the characters to remove starts
    what it leaves. *)
Lemma lstrip_loop_spec (chars : list string) :
  (forall c, In c chars -> nonempty c = true) ->
  forall fuel s,
    String.length s <= fuel ->
    (exists removed, s = removed ++ lstrip_loop fuel chars s) /\
    forall c, In c chars -> startswith c (lstrip_loop fuel chars s) = false.
Proof.
  intros Hchars. induction fuel as [|fuel IH]; intros s Hlen.
  - destruct s; [|simpl in Hlen; lia]. cbn [lstrip_loop]. split.
    + now exists EmptyString.
    + intros c Hc. apply Hchars in Hc. now destruct c.
  - cbn [lstrip_loop].
    destruct (find (fun c => startswith c s) chars) as [[|a c']|] eqn:Hfind.
    + apply find_some in Hfind as [Hin _]. apply Hchars in Hin. discriminate.
    + apply find_some in Hfind as [Hin Hstart].
      apply startswith_iff in Hstart as [rest ->].
      rewrite drop_append.
      destruct (IH rest) as [[removed Hrem] Hnone].
      { rewrite length_append in Hlen. simpl in Hlen. simpl. lia. }
      split; [|exact Hnone].
      exists (String a c' ++ removed).
      rewrite append_assoc. now rewrite <- Hrem.
    + split; [now exists EmptyString|].
      intros c Hc. exact (find_none _ _ Hfind c Hc).
Qed.

Lemma lstrip_spec (chars : list string) (s : string) :
  (forall c, In c chars -> nonempty c = true) ->
  (exists removed, s = removed ++ lstrip chars s) /\
  forall c, In c chars -> startswith c (lstrip chars s) = false.
Proof. intros H. now apply lstrip_loop_spec. Qed.

(** [strip] removes a prefix and a suffix, and none of the characters to
    remove starts or ends what it leaves. *)
Lemma strip_chars_spec (chars : list string) (s : string) :
  (forall c, In c chars -> nonempty c = true) ->
  (exists before after, s = before ++ strip_chars chars s ++ after) /\
  forall c, In c chars ->
    startswith c (strip_chars chars s) = false /\
    endswith c (strip_chars chars s) = false.
Proof.
  intros Hchars. unfold strip_chars.
  destruct (@lstrip_spec chars s Hchars) as [[before Hbefore] Hleft].
  set (t := lstrip chars s) in *.
  assert (Hrchars : forall c, In c (map reversed_str chars) ->
                              nonempty c = true).
  { intros c Hc. apply in_map_iff in Hc as (c0 & <- & Hc0).
    now apply reversed_str_nonempty, Hchars. }
  destruct (@lstrip_spec (map reversed_str chars) (reversed_str t) Hrchars) as [[removed Hrem] Hright].
  set (u := lstrip (map reversed_str chars) (reversed_str t)) in *.
  assert (Ht : t = reversed_str u ++ reversed_str removed).
  { rewrite <- (reversed_str_involutive t), Hrem.
    apply reversed_str_append. }
  split.
  - exists before, (reversed_str removed). now rewrite <- Ht.
  - intros c Hc. split.
    + destruct (startswith c (reversed_str u)) eqn:E; [|reflexivity].
      apply startswith_iff in E as [rest E].
      rewrite <- (Hleft c Hc), Ht, E, append_assoc.
      symmetry. apply startswith_iff. now eexists.
    + unfold endswith. rewrite reversed_str_involutive.
      apply Hright, in_map, Hc.
Qed.

Lemma whitespace_nonempty (w : string) :
  In w whitespace -> nonempty w = true.
Proof.
  revert w. apply forallb_forall. reflexivity.
Qed.

Lemma str_split_fields (sep : ascii) (s : string) :
  forall field,
    In field (str_split sep s) ->
    str_in (String sep EmptyString) field = false.
Proof.
  induction s as [|c s IH]; intros field Hin.
  - destruct Hin as [<-|[]]. reflexivity.
  - cbn [str_split] in Hin. destruct (Ascii.eqb c sep) eqn:Hc.
    + destruct Hin as [<-|Hin]; [reflexivity | now apply IH].
    + destruct (str_split sep s) as [|f fields].
      * destruct Hin as [<-|[]]. cbn. rewrite Ascii.eqb_sym, Hc. reflexivity.
      * destruct Hin as [<-|Hin].
        -- cbn [str_in startswith]. rewrite Ascii.eqb_sym, Hc.
           cbn [andb orb]. apply IH. now left.
        -- apply IH. now right.
Qed.

(** X23: every suggestion of [/suggest] is a piece of one line of the
    model's reply, with what was stripped before and after it; it holds no
    line break, and no whitespace character starts or ends it. *)
Theorem suggestions_are_trimmed_pieces_of_lines (text s : string) :
  In s (Server.suggestion_lines text) ->
  (exists line before after,
     In line (str_split "010"%char text) /\ line = before ++ s ++ after) /\
  str_in nl s = false /\
  forall w, In w whitespace ->
    startswith w s = false /\ endswith w s = false.
Proof.
  unfold Server.suggestion_lines. intros Hin.
  apply in_map_iff in Hin as (line & <- & Hline).
  apply filter_In in Hline as [Hline _].
  assert (Hbullets : forall c, In c ["-"; Server.bullet; " "] ->
                               nonempty c = true).
  { apply forallb_forall. reflexivity. }
  destruct (@strip_chars_spec _ line Hbullets) as [(b1 & a1 & H1) _].
  destruct (@strip_chars_spec whitespace
              (strip_chars ["-"; Server.bullet; " "] line)
              whitespace_nonempty) as [(b2 & a2 & H2) Htrim].
  fold (strip (strip_chars ["-"; Server.bullet; " "] line)) in *.
  set (s := strip (strip_chars ["-"; Server.bullet; " "] line)) in *.
  assert (Hpiece : line = (b1 ++ b2) ++ s ++ (a2 ++ a1)).
  { rewrite H1 at 1. rewrite H2 at 1. now rewrite !append_assoc. }
  split; [|split].
  - now exists line, (b1 ++ b2), (a2 ++ a1).
  - destruct (str_in nl s) eqn:E; [|reflexivity].
    apply str_in_iff in E as (b & a & E).
    rewrite <- (str_split_fields _ _ _ Hline).
    symmetry. apply str_in_iff.
    exists ((b1 ++ b2) ++ b), (a ++ a2 ++ a1).
    rewrite Hpiece, E. now rewrite !append_assoc.
  - exact Htrim.
Qed.

Lemma suggestions_are_trimmed_pieces_of_lines_witness :
  (exists line before after,
     In line (str_split "010"%char ("- What is CCC" ++ nl ++ "- How to join"))
     /\ line = before ++ "What is CCC" ++ after) /\
  str_in nl "What is CCC" = false /\
  forall w, In w whitespace ->
    startswith w "What is CCC" = false /\ endswith w "What is CCC" = false.
Proof.
  apply (@suggestions_are_trimmed_pieces_of_lines
           ("- What is CCC" ++ nl ++ "- How to join") "What is CCC").
  left. vm_compute. reflexivity.
Defined.
